(** * muonic: the DAQ provider and connection layer

    A shallow embedding of [muonic/daq/provider.py] and
    [muonicPro/daq/api/connection.py].

    Conventions.
    - A Python [str] and a [bytes] object are both a [string] of 8-bit
      characters.  The codec between them is the 7-bit one: it is the identity
      on ASCII data and raises a [UnicodeError] otherwise (the ASCII default of
      Python 2, with which the UTF-8 default of Python 3 agrees on all 7-bit
      data; the wire format is ASCII).
    - A [multiprocessing.Queue] is a [list] used first-in first-out.
    - A Python [float] is the rational it stands for ([Q], in seconds for a
      duration), and an operation on floats is the exact operation followed
      by the rounding [nearest].  [binary64] rounds to 53 bits as Python does;
      [exact_arithmetic] does not round.
    - Everything the code obtains from its environment (the discovery hook, the
      file system, the serial device) is an explicit input. *)

From Stdlib Require Import Bool Arith ZArith Lia List String Ascii.
From Stdlib Require Import QArith Qround Qpower Lqa.
Import ListNotations.

Open Scope string_scope.

(** ** Characters and Python's string helpers *)

Definition CR : ascii := ascii_of_nat 13.
Definition LF : ascii := ascii_of_nat 10.
Definition TAB : ascii := ascii_of_nat 9.
Definition VT : ascii := ascii_of_nat 11.
Definition FF : ascii := ascii_of_nat 12.
Definition SPACE : ascii := " "%char.

(** [all_chars p s]: every character of [s] satisfies [p]. *)
Fixpoint all_chars (p : ascii -> bool) (s : string) : bool :=
  match s with
  | EmptyString => true
  | String c s' => p c && all_chars p s'
  end.

(** [c in chars] for a string used as a set of characters. *)
Fixpoint char_in (chars : string) (c : ascii) : bool :=
  match chars with
  | EmptyString => false
  | String d chars' => Ascii.eqb c d || char_in chars' c
  end.

Definition is_empty (s : string) : bool :=
  match s with EmptyString => true | String _ _ => false end.

(** [s.rstrip(chars)], with the set of characters given as a predicate. *)
Fixpoint rstrip (p : ascii -> bool) (s : string) : string :=
  match s with
  | EmptyString => EmptyString
  | String c s' =>
      let r := rstrip p s' in
      if is_empty r && p c then EmptyString else String c r
  end.

(** [s.lstrip(chars)]. *)
Fixpoint lstrip (p : ascii -> bool) (s : string) : string :=
  match s with
  | EmptyString => EmptyString
  | String c s' => if p c then lstrip p s' else s
  end.

(** The characters [bytes.strip()] removes when called without argument. *)
Definition is_whitespace (c : ascii) : bool :=
  char_in
    (String SPACE (String TAB (String LF (String CR (String VT (String FF ""))))))
    c.

(** [b.strip()]. *)
Definition strip (b : string) : string :=
  rstrip is_whitespace (lstrip is_whitespace b).

(** The set ['\r\n'] of [line.rstrip('\r\n')]. *)
Definition is_crlf (c : ascii) : bool := char_in (String CR (String LF "")) c.

Definition is_ascii (c : ascii) : bool := (nat_of_ascii c <? 128)%nat.

(** ** Regular expressions, as far as [LINE_PATTERN] needs them *)

Module Re.

(** One member of a bracketed character set: a character or a range. *)
Inductive set_item : Type :=
| Lit (c : ascii)
| Range (lo hi : ascii).

Definition in_item (c : ascii) (i : set_item) : bool :=
  match i with
  | Lit d => Ascii.eqb c d
  | Range lo hi => Ascii.leb lo c && Ascii.leb c hi
  end.

Definition in_set (items : list set_item) (c : ascii) : bool :=
  existsb (in_item c) items.

Inductive regex : Type :=
| Bol                               (* ^ *)
| Eol                               (* $ *)
| In (items : list set_item)        (* [...] *)
| Cat (r1 r2 : regex)               (* r1 r2 *)
| Star (r : regex).                 (* r* *)

(** [$] without [re.MULTILINE]: at the end of the string, or just before a
    newline that is the last character of the string. *)
Definition at_eol (rest : string) : bool :=
  match rest with
  | EmptyString => true
  | String c EmptyString => Ascii.eqb c LF
  | String _ (String _ _) => false
  end.

(** The iterations of a starred expression whose operand is matched by
    [body], tried greedily.  An iteration that consumes nothing is cut, as the
    [re] engine does, so the length of [rest] bounds their number and is what
    [fuel] is set to. *)
Fixpoint iterate (body : nat -> string -> (nat -> string -> bool) -> bool)
         (k : nat -> string -> bool) (fuel pos : nat) (rest : string)
         {struct fuel} : bool :=
  match fuel with
  | O => k pos rest
  | S fuel' =>
      body pos rest
           (fun pos' rest' =>
              (String.length rest' <? String.length rest)%nat
              && iterate body k fuel' pos' rest')
      || k pos rest
  end.

(** Backtracking matcher in continuation-passing style.  [pos] is the index
    of [rest] in the subject string and [k] tries the remainder of the
    pattern. *)
Fixpoint run (r : regex) (pos : nat) (rest : string)
         (k : nat -> string -> bool) {struct r} : bool :=
  match r with
  | Bol => Nat.eqb pos 0 && k pos rest
  | Eol => at_eol rest && k pos rest
  | In items =>
      match rest with
      | EmptyString => false
      | String c rest' => in_set items c && k (S pos) rest'
      end
  | Cat r1 r2 => run r1 pos rest (fun pos' rest' => run r2 pos' rest' k)
  | Star r1 => iterate (run r1) k (String.length rest) pos rest
  end.

(** [pattern.match(s) is not None]: a match anchored at index 0 that may end
    anywhere. *)
Definition matches (r : regex) (s : string) : bool :=
  run r 0 s (fun _ _ => true).

End Re.

(** ** Results, logging and queues *)

Inductive level : Type := DEBUG | INFO | WARNING | ERROR | FATAL.

(** One call of a [logging.Logger] method. *)
Record log_record : Type := Log { log_level : level; log_msg : string }.

(** Exceptions that cross a function boundary in the two modules. *)
Inductive exn : Type :=
| DAQIOError (msg : string)
| OSError (msg : string)
| UnicodeError.

(** What a call does: return a value, raise, or never come back because it
    waits for something nobody in the model provides. *)
Inductive result (A : Type) : Type :=
| Ret (a : A)
| Raise (e : exn)
| Blocked.

Arguments Ret {A} a.
Arguments Raise {A} e.
Arguments Blocked {A}.

Definition raises {A : Type} (r : result A) : bool :=
  match r with Raise _ => true | _ => false end.

(** [multiprocessing.Queue], unbounded, holding strings. *)
Module Queue.

Definition t : Type := list string.

(** The [block]/[timeout] arguments of [get]: [get()], [get(False)] or
    [get(0)], and [get(True, timeout)]. *)
Inductive wait : Type :=
| Block
| NoWait
| Timeout (seconds : Q).

(** [Empty] is the exception [queue.Empty]. *)
Inductive got : Type :=
| Item (x : string) (rest : t)
| Empty
| Waits.

Definition get (w : wait) (q : t) : got :=
  match q with
  | x :: rest => Item x rest
  | [] => match w with Block => Waits | NoWait | Timeout _ => Empty end
  end.

Definition put (x : string) (q : t) : t := (q ++ [x])%list.


End Queue.

(** ** muonic/daq/provider.py *)

Module Provider.

(** [LINE_PATTERN = re.compile("^[a-zA-Z0-9+-.,:()=$/#?!%_@*|~' ]*[\n\r]*$")].
    Inside the brackets [+-.] is a range. *)
Definition LINE_CLASS : list Re.set_item :=
  [ Re.Range "a" "z"; Re.Range "A" "Z"; Re.Range "0" "9"; Re.Range "+" ".";
    Re.Lit ","; Re.Lit ":"; Re.Lit "("; Re.Lit ")"; Re.Lit "="; Re.Lit "$";
    Re.Lit "/"; Re.Lit "#"; Re.Lit "?"; Re.Lit "!"; Re.Lit "%"; Re.Lit "_";
    Re.Lit "@"; Re.Lit "*"; Re.Lit "|"; Re.Lit "~"; Re.Lit "'";
    Re.Lit " " ]%char.

Definition LINE_PATTERN : Re.regex :=
  Re.Cat Re.Bol
    (Re.Cat (Re.Star (Re.In LINE_CLASS))
       (Re.Cat (Re.Star (Re.In [Re.Lit LF; Re.Lit CR])) Re.Eol)).

(** The attributes of a [DAQProvider] that its methods touch.  The two queues
    are shared with the reader and the writer process. *)
Record DAQProvider : Type := mkProvider {
  logger : list log_record;
  out_queue : Queue.t;
  in_queue : Queue.t
}.

Definition set_out_queue (q : Queue.t) (self : DAQProvider) : DAQProvider :=
  mkProvider (logger self) q (in_queue self).

Definition set_in_queue (q : Queue.t) (self : DAQProvider) : DAQProvider :=
  mkProvider (logger self) (out_queue self) q.

(** A method of the provider: it returns or raises, and leaves a provider. *)
Definition method (A : Type) : Type := DAQProvider -> result A * DAQProvider.

Definition ret {A : Type} (a : A) : method A := fun self => (Ret a, self).

Definition raise {A : Type} (e : exn) : method A := fun self => (Raise e, self).

Definition bind {A B : Type} (m : method A) (f : A -> method B) : method B :=
  fun self =>
    match m self with
    | (Ret a, self') => f a self'
    | (Raise e, self') => (Raise e, self')
    | (Blocked, self') => (Blocked, self')
    end.

Notation "x <- m ;; f" := (bind m (fun x => f))
  (at level 61, m at next level, right associativity).
Notation "m ;;; f" := (bind m (fun _ => f))
  (at level 61, right associativity).

(** [self.logger.warning(msg)]. *)
Definition logger_warning (msg : string) : method unit :=
  fun self =>
    (Ret tt, mkProvider (logger self ++ [Log WARNING msg])%list (out_queue self)
                        (in_queue self)).

(** [BaseDAQProvider._validate_line]. *)
Definition _validate_line (line : string) : method (option string) :=
  if negb (Re.matches LINE_PATTERN line) then
    logger_warning ("Got garbage from the DAQ: " ++ rstrip is_crlf line) ;;;
    ret None
  else
    ret (Some line).

(** [self.out_queue.get( *args )] with [queue.Empty] turned into
    [DAQIOError]. *)
Definition out_queue_get (w : Queue.wait) : method string :=
  fun self =>
    match Queue.get w (out_queue self) with
    | Queue.Item line rest => (Ret line, set_out_queue rest self)
    | Queue.Empty => (Raise (DAQIOError "Queue is empty"), self)
    | Queue.Waits => (Blocked, self)
    end.

(** [DAQProvider.get]. *)
Definition get (w : Queue.wait) : method (option string) :=
  line <- out_queue_get w ;;
  _validate_line line.

(** [DAQProvider.put]. *)
Definition put (item : string) : method unit :=
  fun self => (Ret tt, set_in_queue (Queue.put item (in_queue self)) self).

End Provider.

(** ** muonicPro/daq/api/connection.py *)

Module Connection.

(** [bytes.decode()] and [str.encode()] with the 7-bit codec. *)
Definition decode (b : string) : string + exn :=
  if all_chars is_ascii b then inl b else inr UnicodeError.

Definition encode (s : string) : string + exn :=
  if all_chars is_ascii s then inl s else inr UnicodeError.

(** A [serial.Serial] object.  All of them are opened with baud rate 115200,
    8 data bits, no parity, 1 stop bit, a read timeout of 0.5 s and software
    flow control; only the device differs. *)
Record Serial : Type := mkSerial { port : string; is_open : bool }.

(** What a connection does to the world outside its own attributes. *)
Inductive effect : Type :=
| Logged (r : log_record)
| Slept (seconds : Q)
| Opened (dev : string)
| Closed (dev : string)
| Wrote (data : string).

(** *** The environment of [get_serial_port] *)

(** Running a discovery script with [subprocess.Popen]: it prints something,
    or [Popen] raises [OSError]. *)
Inductive hook_run : Type :=
| Prints (out : string)
| NotRun (msg : string).

(** [serial.Serial(...)] returns, or raises [SerialException]. *)
Inductive open_result : Type :=
| OpenOk
| OpenFails (msg : string).

(** What the environment answers during one turn of the loop of
    [get_serial_port]. *)
Record attempt : Type := mkAttempt {
  on_path : hook_run;        (* Popen(["which_tty_daq"]) *)
  packaged_exists : bool;    (* os.path.exists(<package>/bin/which_tty_daq) *)
  packaged : hook_run;       (* Popen([<package>/bin/which_tty_daq]) *)
  opening : open_result      (* serial.Serial(port=dev, ...) *)
}.

(** [BaseDAQConnection.get_dev_path]. *)
Definition get_dev_path (script : hook_run) : string + exn :=
  match script with
  | NotRun msg => inr (OSError msg)
  | Prints tty =>
      match decode tty with
      | inl name => inl ("/dev/" ++ rstrip (fun c => Ascii.eqb c LF) name)
      | inr e => inr e
      end
  end.

(** The first [try] block of the loop: the device path, or the exception that
    leaves [get_serial_port]. *)
Definition find_dev (a : attempt) : string + exn :=
  match get_dev_path (on_path a) with
  | inr (OSError _) =>
      if negb (packaged_exists a)
      then inr (OSError "Can not find binary which_tty_daq")
      else get_dev_path (packaged a)
  | other => other
  end.

Inductive acquired : Type :=
| Connected (serial_port : Serial)
| Failed (e : exn)
| Retrying.   (* still in the loop when the environment stops answering *)

(** [BaseDAQConnection.get_serial_port], with the effects it has in order. *)
Fixpoint get_serial_port (world : list attempt) : acquired * list effect :=
  match world with
  | [] => (Retrying, [])
  | a :: world' =>
      match find_dev a with
      | inr e => (Failed e, [])
      | inl dev =>
          let found := [Logged (Log INFO ("Daq found at " ++ dev));
                        Logged (Log INFO "trying to connect...")] in
          match opening a with
          | OpenOk =>
              (Connected (mkSerial dev true),
               found
                 ++ [Opened dev;
                     Logged (Log INFO "Successfully connected to serial port")])%list
          | OpenFails msg =>
              let (r, later) := get_serial_port world' in
              (r, found ++ [Logged (Log ERROR msg);
                            Logged (Log ERROR "Waiting 5 seconds");
                            Slept 5] ++ later)%list
          end
      end
  end.

(** The attributes of a [BaseDAQConnection], and what it did so far. *)
Record BaseDAQConnection : Type := mkConnection {
  running : bool;
  serial_port : Serial;
  trace : list effect
}.

Definition did (es : list effect) (self : BaseDAQConnection)
  : BaseDAQConnection :=
  mkConnection (running self) (serial_port self) (trace self ++ es)%list.

(** [BaseDAQConnection.__init__].  [get_serial_port] handles every
    [SerialException] itself, so the handler of the constructor is never
    entered. *)
Definition __init__ (world : list attempt)
  : result BaseDAQConnection * list effect :=
  match get_serial_port world with
  | (Connected p, es) => (Ret (mkConnection true p es), es)
  | (Failed e, es) => (Raise e, es)
  | (Retrying, es) => (Blocked, es)
  end.

(** How far a loop got.  [L] are the local variables of the loop, [S] the
    shared object it fills or empties. *)
Inductive outcome (L S : Type) : Type :=
| Returned (self : BaseDAQConnection) (shared : S)     (* the loop was left *)
| Looping (locals : L) (self : BaseDAQConnection) (shared : S)
                                                       (* still iterating *)
| Escaped (e : exn) (self : BaseDAQConnection) (shared : S)
| Reacquiring (self : BaseDAQConnection) (shared : S)  (* in get_serial_port *)
| Receiving (self : BaseDAQConnection) (shared : S).   (* in recv_string *)

Arguments Returned {L S} self shared.
Arguments Looping {L S} locals self shared.
Arguments Escaped {L S} e self shared.
Arguments Reacquiring {L S} self shared.
Arguments Receiving {L S} self shared.

(** *** Floating point *)

(** [nearest x] is the float that a computation yields whose exact result is
    [x], and the float that the decimal literal [x] denotes.  The literals
    [1.5], [2] and [5] are floats themselves and are written as they are. *)
Class Float : Type := { nearest : Q -> Q }.

(** What is used of the rounding: it is monotone, it leaves a float as it is,
    and 0 is a float. *)
Class FloatLaws (F : Float) : Prop := {
  nearest_le : forall x y : Q, (x <= y)%Q -> (nearest x <= nearest y)%Q;
  nearest_float : forall x : Q, (nearest (nearest x) == nearest x)%Q;
  nearest_0 : (nearest 0 == 0)%Q
}.

(** The exponent [e] of a positive [x]: [2 ^ e <= x < 2 ^ (e + 1)]. *)
Definition mag (x : Q) : Z :=
  let e := (Z.log2 (Qnum x) - Z.log2 (Zpos (Qden x)))%Z in
  if Qle_bool (2 ^ e) x then e else (e - 1)%Z.

(** The nearest integer, the even one of two that are equally near. *)
Definition rne (q : Q) : Z :=
  let f := Qfloor q in
  match Qcompare (q - inject_Z f) (1 # 2) with
  | Lt => f
  | Gt => (f + 1)%Z
  | Eq => if Z.even f then f else (f + 1)%Z
  end.

(** The significand of a Python float has 53 bits. *)
Definition prec : Z := 53.

(** The distance between the floats around a positive [x]. *)
Definition ulp (x : Q) : Q := (2 ^ (mag x - (prec - 1)))%Q.

Definition round_pos (x : Q) : Q := (inject_Z (rne (x / ulp x)) * ulp x)%Q.

(** Rounding to the nearest float, ties to even.  The range of the exponent
    is not limited: nothing in the loops comes near the largest or the
    smallest float. *)
Definition round_nearest (x : Q) : Q :=
  match Qcompare x 0 with
  | Eq => 0%Q
  | Gt => round_pos x
  | Lt => (- round_pos (- x))%Q
  end.

(** The floats of Python. *)
Definition binary64 : Float := {| nearest := round_nearest |}.

(** Exact arithmetic: every rational is a float. *)
Definition exact_arithmetic : Float := {| nearest := fun x => x |}.

(** *** The reader loop *)

Definition min_sleep_time {F : Float} : Q := nearest 0.01.
Definition max_sleep_time {F : Float} : Q := nearest 0.2.

(** Python's [max(a, b)] and [min(a, b)]: the first argument unless the second
    is strictly greater, respectively strictly smaller. *)
Definition max (a b : Q) : Q := if Qle_bool b a then a else b.
Definition min (a b : Q) : Q := if Qle_bool a b then a else b.

(** What the serial device does during one turn of the reader loop: [data]
    is what can be read from it in that turn; after a [Fault] the next call on
    the port raises an [IOError] or an [OSError], and [world] answers the
    [get_serial_port] that follows. *)
Inductive hw_event : Type :=
| Poll (data : string)
| Fault (data : string) (world : list attempt).

(** [serial_port.inWaiting()] on a port with [buf] pending. *)
Definition inWaiting (buf : string) : nat := String.length buf.

(** [serial_port.readline()]: up to and including the first LF, or all there
    is when the read timeout passes without one.  Returns the line and what
    stays in the buffer. *)
Fixpoint readline (buf : string) : string * string :=
  match buf with
  | EmptyString => (EmptyString, EmptyString)
  | String c buf' =>
      if Ascii.eqb c LF then (String c EmptyString, buf')
      else let (line, rest) := readline buf' in (String c line, rest)
  end.

(** [(serial_port.readline().strip()).decode()] for a line [raw] read from the
    port. *)
Definition received (raw : string) : string + exn := decode (strip raw).

Section ReaderLoop.

(** [DAQConnection.read] and [DAQServer.read] are the same loop, up to where a
    line goes: [self.out_queue.put] or [self.socket.send]. *)
Context {F : Float}.
Variable Sink : Type.
Variable emit : string -> Sink -> Sink.

Inductive drained : Type :=
| Drained (sink : Sink)
| DrainRaised (e : exn) (sink : Sink).

(** [while self.serial_port.inWaiting(): emit(readline().strip().decode())].
    Every [readline] takes at least one byte, so [fuel] is the length of the
    buffer; the branch for no fuel is reached with an empty buffer only. *)
Fixpoint drain (fuel : nat) (buf : string) (sink : Sink) : drained :=
  if Nat.eqb (inWaiting buf) 0 then Drained sink
  else
    match fuel with
    | O => Drained sink
    | S fuel' =>
        let (raw, buf') := readline buf in
        match received raw with
        | inl line => drain fuel' buf' (emit line sink)
        | inr e => DrainRaised e sink
        end
    end.

Definition read_pending (buf : string) (sink : Sink) : drained :=
  drain (String.length buf) buf sink.

(** The [except (IOError, OSError)] block. *)
Definition reconnect (world : list attempt) (sleep_time : Q)
           (self : BaseDAQConnection) (sink : Sink) : outcome Q Sink :=
  let old := serial_port self in
  let self := did [Logged (Log ERROR "IOError"); Closed (port old)]
                  (mkConnection (running self) (mkSerial (port old) false)
                                (trace self)) in
  match get_serial_port world with
  | (Connected p, es) =>
      Looping sleep_time
              (mkConnection (running self) p (trace self ++ es)%list) sink
  | (Failed e, es) => Escaped e (did es self) sink
  | (Retrying, es) => Reacquiring (did es self) sink
  end.

(** The body of [while self.running] in [read]; [Looping] means that the
    body was left normally, with the new value of [sleep_time]. *)
Definition read_body (ev : hw_event) (sleep_time : Q)
           (self : BaseDAQConnection) (sink : Sink) : outcome Q Sink :=
  match ev with
  | Poll data =>
      if negb (Nat.eqb (inWaiting data) 0) then
        match read_pending data sink with
        | Drained sink' =>
            let sleep_time := max (nearest (sleep_time / 2)) min_sleep_time in
            Looping sleep_time (did [Slept sleep_time] self) sink'
        | DrainRaised e sink' => Escaped e self sink'
        end
      else
        let sleep_time := min (nearest (1.5 * sleep_time)) max_sleep_time in
        Looping sleep_time (did [Slept sleep_time] self) sink
  | Fault data world =>
      match read_pending data sink with
      | Drained sink' => reconnect world sleep_time self sink'
      | DrainRaised e sink' => Escaped e self sink'
      end
  end.

(** [while self.running: ...] over what the device does turn by turn. *)
Fixpoint read_loop (events : list hw_event) (sleep_time : Q)
         (self : BaseDAQConnection) (sink : Sink) : outcome Q Sink :=
  if running self then
    match events with
    | [] => Looping sleep_time self sink
    | ev :: events' =>
        match read_body ev sleep_time self sink with
        | Looping sleep_time' self' sink' =>
            read_loop events' sleep_time' self' sink'
        | other => other
        end
    end
  else Returned self sink.

(** [read]. *)
Definition read (events : list hw_event) (self : BaseDAQConnection)
           (sink : Sink) : outcome Q Sink :=
  read_loop events min_sleep_time self sink.

End ReaderLoop.

Arguments Drained {Sink} sink.
Arguments DrainRaised {Sink} e sink.
Arguments read_pending {Sink} emit buf sink.
Arguments reconnect {Sink} world sleep_time self sink.
Arguments read_body {F Sink} emit ev sleep_time self sink.
Arguments read_loop {F Sink} emit events sleep_time self sink.
Arguments read {F Sink} emit events self sink.

(** [DAQConnection.read]: lines go to [self.out_queue]. *)
Definition DAQConnection_read {F : Float} (events : list hw_event)
           (self : BaseDAQConnection) (out_queue : Queue.t)
  : outcome Q Queue.t :=
  read Queue.put events self out_queue.

(** *** The writer loop *)

(** [serial_port.write(data)] returns, or raises [SerialTimeoutException]. *)
Inductive write_result : Type :=
| Accepted
| TimedOut.

(** [(str(item) + "\r").encode()]. *)
Definition command_bytes (item : string) : string + exn :=
  encode (item ++ String CR "").

(** [self.serial_port.write(data)] under [except SerialTimeoutException: pass].
    [answers] is what the port answers to the writes still to come; it accepts
    whatever is written once the list is used up. *)
Definition port_write (data : string) (answers : list write_result)
           (self : BaseDAQConnection) : list write_result * BaseDAQConnection :=
  match answers with
  | TimedOut :: answers' => (answers', self)
  | Accepted :: answers' => (answers', did [Wrote data] self)
  | [] => ([], did [Wrote data] self)
  end.

(** [while self.in_queue.qsize(): write(str(get(0)) + "\r")], and, where
    [qsize] is not implemented, the [while True] that writes one
    [get(timeout=0.01)] after the other.  Nobody else takes from the queue, so
    a [get] on a non-empty queue returns its head.  [Looping] means that the
    queue has been emptied. *)
Fixpoint write_pending (answers : list write_result) (self : BaseDAQConnection)
         (in_queue : Queue.t) : list write_result * outcome unit Queue.t :=
  match in_queue with
  | [] => (answers, Looping tt self [])
  | item :: rest =>
      match command_bytes item with
      | inr e => (answers, Escaped e self rest)
      | inl data =>
          let (answers', self') := port_write data answers self in
          write_pending answers' self' rest
      end
  end.

(** [DAQConnection.write], for [cycles] turns of [while self.running].
    [qsize_implemented] is false on the platforms where
    [multiprocessing.Queue.qsize] raises [NotImplementedError]; there the
    handler never gives control back to the outer loop. *)
Fixpoint write_loop {F : Float} (cycles : nat) (qsize_implemented : bool)
         (answers : list write_result) (self : BaseDAQConnection)
         (in_queue : Queue.t) : outcome unit Queue.t :=
  if running self then
    match cycles with
    | O => Looping tt self in_queue
    | S cycles' =>
        if qsize_implemented then
          match write_pending answers self in_queue with
          | (answers', Looping _ self' in_queue') =>
              write_loop cycles' qsize_implemented answers'
                         (did [Slept (nearest 0.1)] self') in_queue'
          | (_, other) => other
          end
        else
          snd (write_pending
                 answers
                 (did [Logged (Log DEBUG "Running Mac version of muonic.")]
                      self)
                 in_queue)
    end
  else Returned self in_queue.

Definition DAQConnection_write {F : Float} := write_loop.

(** *** The server *)

(** A [zmq.PAIR] socket: the messages sent on it, and those that arrived and
    were not received yet. *)
Record Socket : Type := mkSocket { sent : list string; inbox : list string }.

(** [socket.send(msg)]. *)
Definition send (msg : string) (s : Socket) : Socket :=
  mkSocket (sent s ++ [msg])%list (inbox s).

(** [DAQServer.read]: lines go to [self.socket]. *)
Definition DAQServer_read {F : Float} (events : list hw_event)
           (self : BaseDAQConnection)
           (socket : Socket) : outcome Q Socket :=
  read send events self socket.

(** [DAQServer.write]: [recv_string] takes the oldest message of the inbox and
    waits when there is none. *)
Fixpoint server_write_loop {F : Float} (pending : list string)
         (self : BaseDAQConnection) (sent : list string)
  : outcome unit Socket :=
  if running self then
    match pending with
    | [] => Receiving self (mkSocket sent [])
    | msg :: pending' =>
        match command_bytes msg with
        | inr e => Escaped e self (mkSocket sent pending')
        | inl data =>
            server_write_loop pending'
                              (did [Wrote data; Slept (nearest 0.1)] self) sent
        end
    end
  else Returned self (mkSocket sent pending).

Definition DAQServer_write {F : Float} (self : BaseDAQConnection)
           (socket : Socket)
  : outcome unit Socket :=
  server_write_loop (inbox socket) self (sent socket).

(** [DAQServer.serve], for [turns] turns of [while True].  [read] gives
    control back only when [self.running] is false, in which case it has
    consumed none of [events]. *)
Fixpoint serve {F : Float} (turns : nat) (events : list hw_event)
         (self : BaseDAQConnection) (socket : Socket) : outcome unit Socket :=
  match turns with
  | O => Looping tt self socket
  | S turns' =>
      match DAQServer_read events self socket with
      | Returned self' socket' =>
          match DAQServer_write self' socket' with
          | Returned self'' socket'' => serve turns' events self'' socket''
          | other => other
          end
      | Looping _ self' socket' => Looping tt self' socket'
      | Escaped e self' socket' => Escaped e self' socket'
      | Reacquiring self' socket' => Reacquiring self' socket'
      | Receiving self' socket' => Receiving self' socket'
      end
  end.

(** *** Reading an outcome *)

Definition connection_of {L S : Type} (o : outcome L S) : BaseDAQConnection :=
  match o with
  | Returned self _ | Looping _ self _ | Escaped _ self _
  | Reacquiring self _ | Receiving self _ => self
  end.

Definition shared_of {L S : Type} (o : outcome L S) : S :=
  match o with
  | Returned _ s | Looping _ _ s | Escaped _ _ s
  | Reacquiring _ s | Receiving _ s => s
  end.

(** The data written to the serial port, in order. *)
Fixpoint writes (es : list effect) : list string :=
  match es with
  | [] => []
  | Wrote data :: es' => data :: writes es'
  | _ :: es' => writes es'
  end.

(** The pauses, in order. *)
Fixpoint sleeps (es : list effect) : list Q :=
  match es with
  | [] => []
  | Slept t :: es' => t :: sleeps es'
  | _ :: es' => sleeps es'
  end.

End Connection.

(** ** Definitions used to state the properties *)

Import Provider Connection.

(** The allowed grammar in the words of the specification, to be compared with
    [LINE_PATTERN]: letters, digits, the punctuation set and the space. *)
Definition spec_letter (c : ascii) : bool :=
  (Ascii.leb "a" c && Ascii.leb c "z") || (Ascii.leb "A" c && Ascii.leb c "Z").

Definition spec_digit (c : ascii) : bool := Ascii.leb "0" c && Ascii.leb c "9".

Definition SPEC_PUNCTUATION : string := "+-.,:()=$/#?!%_@*|~'".

Definition allowed_by_spec (c : ascii) : bool :=
  spec_letter c || spec_digit c || char_in SPEC_PUNCTUATION c
  || Ascii.eqb c SPACE.

(** Every character of the line, its trailing CR/LF excluded, is in the
    grammar. *)
Definition valid_by_spec (line : string) : bool :=
  all_chars allowed_by_spec (rstrip is_crlf line).

(** [star_set items k pos s]: the continuation [k] accepts what some run of
    characters of [items] at the start of [s] leaves. *)
Fixpoint star_set (items : list Re.set_item) (k : nat -> string -> bool)
         (pos : nat) (s : string) : bool :=
  match s with
  | EmptyString => k pos s
  | String c s' => (Re.in_set items c && star_set items k (S pos) s') || k pos s
  end.

(** What happens to a provider: calls of its methods, and lines that the
    reader process puts into [out_queue] in between. *)
Inductive call : Type :=
| Get (w : Queue.wait)
| Put (item : string)
| Arrives (line : string).

(** The results of the [get] calls among [calls], in order. *)
Fixpoint history (calls : list call) (self : DAQProvider)
  : list (result (option string)) :=
  match calls with
  | [] => []
  | Get w :: calls' =>
      let (r, self') := get w self in r :: history calls' self'
  | Put item :: calls' => history calls' (snd (put item self))
  | Arrives line :: calls' =>
      history calls' (set_out_queue (Queue.put line (out_queue self)) self)
  end.

(** A command as it is written to the port: followed by one CR. *)
Definition with_cr (item : string) : string := item ++ String CR "".

(** [put(c1); ...; put(cn)]. *)
Fixpoint puts (items : list string) (self : DAQProvider) : DAQProvider :=
  match items with
  | [] => self
  | item :: items' => puts items' (snd (put item self))
  end.

(** The lines that successive calls of [readline] cut out of a buffer. *)
Fixpoint raw_lines (buf : string) : list string :=
  match buf with
  | EmptyString => []
  | String c buf' =>
      if Ascii.eqb c LF then String c EmptyString :: raw_lines buf'
      else
        match raw_lines buf' with
        | [] => [String c EmptyString]
        | line :: lines => String c line :: lines
        end
  end.

(** An attempt of [get_serial_port] that resolves a device and fails to open
    it. *)
Definition open_fails (a : attempt) : Prop :=
  (exists dev, find_dev a = inl dev) /\ (exists msg, opening a = OpenFails msg).

(** An attempt in which the discovery hook is neither on the search path nor
    in the package. *)
Definition hook_missing (a : attempt) : Prop :=
  (exists msg, on_path a = NotRun msg) /\ packaged_exists a = false.

Definition within_bounds {F : Float} (t : Q) : Prop :=
  (min_sleep_time <= t)%Q /\ (t <= max_sleep_time)%Q.

(** [kept part self sink o]: at the outcome [o] of a loop started on [self]
    and [sink], the running flag and what was written to the serial port are
    as they were, and so is the part [part] of the shared object. *)
Definition kept {L Sink A : Type} (part : Sink -> A) (self : BaseDAQConnection)
           (sink : Sink) (o : outcome L Sink) : Prop :=
  running (connection_of o) = running self
  /\ writes (trace (connection_of o)) = writes (trace self)
  /\ part (shared_of o) = part sink.

(** [t] is a float: rounding leaves it as it is. *)
Definition is_float {F : Float} (t : Q) : Prop := (nearest t == t)%Q.

(** ** More of muonic/daq/provider.py *)






(** [DAQClient]: the provider that talks to a [DAQServer] over a socket. *)
Module DAQClient.

Record t : Type := mkClient {
  logger : list log_record;
  socket : Socket
}.

(** [self._validate_line(line)], which uses the logger only. *)
Definition _validate_line (line : string) (self : t)
  : result (option string) * t :=
  let (r, base) := Provider._validate_line line (mkProvider (logger self) [] []) in
  (r, mkClient (Provider.logger base) (socket self)).

(** [DAQClient.get].  The arguments are not used.  [link_up] is false when
    [recv_string] raises; without a message it waits for one. *)
Definition get (link_up : bool) (self : t) : result (option string) * t :=
  if link_up then
    match inbox (socket self) with
    | [] => (Blocked, self)
    | line :: rest =>
        _validate_line line
                       (mkClient (logger self) (mkSocket (sent (socket self)) rest))
    end
  else (Raise (DAQIOError "Socket error"), self).

(** [DAQClient.put]. *)
Definition put (item : string) (self : t) : result unit * t :=
  (Ret tt, mkClient (logger self) (send item (socket self))).

(** [n] calls of [get] one after the other, while they return: the results,
    and the client they leave. *)
Fixpoint gets (n : nat) (self : t) : list (result (option string)) * t :=
  match n with
  | O => ([], self)
  | S n' =>
      match get true self with
      | (Ret r, self') =>
          let (rs, self'') := gets n' self' in (Ret r :: rs, self'')
      | (other, self') => ([other], self')
      end
  end.

End DAQClient.

(** ** Definitions used to state further properties *)

(** What [get] makes of a line. *)
Definition validated (line : string) : result (option string) :=
  Ret (if Re.matches LINE_PATTERN line then Some line else None).

(** The provider after [calls]. *)
Fixpoint after (calls : list call) (self : DAQProvider) : DAQProvider :=
  match calls with
  | [] => self
  | Get w :: calls' => after calls' (snd (get w self))
  | Put item :: calls' => after calls' (snd (put item self))
  | Arrives line :: calls' =>
      after calls' (set_out_queue (Queue.put line (out_queue self)) self)
  end.

(** The items of the [put] calls among [calls], in order. *)
Fixpoint items_put (calls : list call) : list string :=
  match calls with
  | [] => []
  | Put item :: calls' => item :: items_put calls'
  | _ :: calls' => items_put calls'
  end.

Definition is_put (c : call) : bool :=
  match c with Put _ => true | _ => false end.

(** The number of [None] among the results of [get]. *)
Fixpoint rejected (rs : list (result (option string))) : nat :=
  match rs with
  | [] => O
  | Ret None :: rs' => S (rejected rs')
  | _ :: rs' => rejected rs'
  end.



(** The commands of a queue that reach the port when it answers [answers] to
    the writes: those whose write does not time out. *)
Fixpoint written (answers : list write_result) (q : Queue.t) : list string :=
  match q with
  | [] => []
  | item :: q' =>
      match answers with
      | TimedOut :: answers' => written answers' q'
      | Accepted :: answers' => with_cr item :: written answers' q'
      | [] => with_cr item :: written [] q'
      end
  end.

(** A pause of the reader process: a backoff interval or the five seconds of
    [get_serial_port]. *)
Definition reader_pause {F : Float} (t : Q) : Prop :=
  within_bounds t \/ t = 5%Q.

(** The lines that arrive in the outbound queue during [calls], in order. *)
Fixpoint arrived (calls : list call) : list string :=
  match calls with
  | [] => []
  | Arrives line :: calls' => line :: arrived calls'
  | _ :: calls' => arrived calls'
  end.

(** The results of the calls that returned. *)
Fixpoint returned (rs : list (result (option string)))
  : list (result (option string)) :=
  match rs with
  | [] => []
  | Ret r :: rs' => Ret r :: returned rs'
  | _ :: rs' => returned rs'
  end.

(** The writer loop of [DAQConnection] while commands are put: before each of
    its cycles the commands of one batch are put into the inbound queue.  The
    port accepts what is written and [qsize] is implemented. *)
Fixpoint write_rounds {F : Float} (batches : list (list string))
         (self : BaseDAQConnection) (in_queue : Queue.t)
  : outcome unit Queue.t :=
  match batches with
  | [] => Looping tt self in_queue
  | batch :: batches' =>
      match write_loop 1 true [] self (in_queue ++ batch)%list with
      | Looping _ self' in_queue' => write_rounds batches' self' in_queue'
      | other => other
      end
  end.

(** * Properties *)

(** ** Strings *)

Lemma rstrip_empty_iff (p : ascii -> bool) (s : string) :
  is_empty (rstrip p s) = all_chars p s.
Proof.
  induction s as [|c s IH]; simpl; [reflexivity|].
  rewrite <- IH.
  destruct (is_empty (rstrip p s)), (p c); reflexivity.
Qed.

Lemma all_chars_app (p : ascii -> bool) (a b : string) :
  all_chars p (a ++ b) = all_chars p a && all_chars p b.
Proof.
  induction a as [|c a IH]; simpl; [reflexivity|].
  now rewrite IH, andb_assoc.
Qed.

(** A string is what [rstrip] leaves of it, followed by characters of the
    stripped set only. *)
Lemma rstrip_split (p : ascii -> bool) (s : string) :
  exists tail, s = rstrip p s ++ tail /\ all_chars p tail = true.
Proof.
  induction s as [|c s (tail & Hs & Ht)]; simpl.
  - exists ""; split; reflexivity.
  - destruct (is_empty (rstrip p s)) eqn:He; simpl.
    + destruct (p c) eqn:Hc.
      * exists (String c s); split; [reflexivity|].
        simpl. rewrite Hc. rewrite rstrip_empty_iff in He. exact He.
      * exists tail; split; [|exact Ht]. simpl. now rewrite <- Hs.
    + exists tail; split; [|exact Ht]. simpl. now rewrite <- Hs.
Qed.

Lemma rstrip_all (p : ascii -> bool) (s : string) :
  all_chars p s = true -> rstrip p s = "".
Proof.
  intros H. rewrite <- rstrip_empty_iff in H.
  destruct (rstrip p s); [reflexivity|discriminate].
Qed.

(** ** The line pattern *)

(** The bracketed set of [LINE_PATTERN] is the grammar of the specification:
    the range [+-.] it contains adds the comma, which the set lists anyway. *)
Lemma LINE_CLASS_allowed_by_spec (c : ascii) :
  Re.in_set LINE_CLASS c = allowed_by_spec c.
Proof.
  destruct c as [[] [] [] [] [] [] [] []]; reflexivity.
Qed.

Lemma newline_set_is_crlf (c : ascii) :
  Re.in_set [Re.Lit LF; Re.Lit CR] c = is_crlf c.
Proof.
  unfold Re.in_set, is_crlf. simpl.
  destruct (Ascii.eqb c LF), (Ascii.eqb c CR); reflexivity.
Qed.

Lemma allowed_not_crlf (c : ascii) :
  allowed_by_spec c = true -> is_crlf c = false.
Proof.
  destruct c as [[] [] [] [] [] [] [] []]; simpl; intros H;
    first [reflexivity | discriminate H].
Qed.

(** The fuel given to a starred set is enough. *)
Lemma iterate_set items k :
  forall fuel pos s,
    (String.length s <= fuel)%nat ->
    Re.iterate (Re.run (Re.In items)) k fuel pos s = star_set items k pos s.
Proof.
  induction fuel as [|fuel IH]; intros pos s Hlen.
  - destruct s; [reflexivity | simpl in Hlen; lia].
  - destruct s as [|c s]; simpl.
    + reflexivity.
    + rewrite IH by (simpl in Hlen; lia).
      replace (String.length s <? S (String.length s))%nat with true
        by (symmetry; apply Nat.ltb_lt; lia).
      reflexivity.
Qed.

Lemma run_star_set items k pos s :
  Re.run (Re.Star (Re.In items)) pos s k = star_set items k pos s.
Proof. simpl. apply iterate_set. lia. Qed.

(** After the allowed characters, [[\n\r]*$] accepts exactly the strings of
    CR and LF. *)
Lemma newlines_then_eol (s : string) :
  forall pos,
    star_set [Re.Lit LF; Re.Lit CR]
             (fun pos' rest => Re.run Re.Eol pos' rest (fun _ _ => true))
             pos s
    = all_chars is_crlf s.
Proof.
  induction s as [|c s IH]; intros pos.
  - reflexivity.
  - cbn [star_set all_chars]. rewrite IH, newline_set_is_crlf.
    destruct (is_crlf c) eqn:Hc; simpl.
    + destruct s as [|d s]; simpl; [reflexivity|].
      now rewrite orb_false_r.
    + destruct s as [|d s]; simpl; [|reflexivity].
      rewrite andb_true_r.
      destruct (Ascii.eqb_spec c LF) as [->|]; [discriminate Hc|reflexivity].
Qed.

Lemma star_set_ext items k k' :
  (forall pos s, k pos s = k' pos s) ->
  forall s pos, star_set items k pos s = star_set items k' pos s.
Proof.
  intros Hk. induction s as [|c s IH]; intros pos; simpl.
  - apply Hk.
  - now rewrite IH, Hk.
Qed.

Lemma run_cat r1 r2 pos s k :
  Re.run (Re.Cat r1 r2) pos s k
  = Re.run r1 pos s (fun pos' rest' => Re.run r2 pos' rest' k).
Proof. reflexivity. Qed.

Lemma run_bol_start s k : Re.run Re.Bol 0 s k = k 0%nat s.
Proof. reflexivity. Qed.

(** What [LINE_PATTERN.match] decides. *)
Lemma LINE_PATTERN_matches (line : string) :
  Re.matches LINE_PATTERN line = valid_by_spec line.
Proof.
  unfold Re.matches, LINE_PATTERN, valid_by_spec.
  rewrite run_cat, run_bol_start, run_cat, run_star_set.
  rewrite (star_set_ext _ _ (fun _ s => all_chars is_crlf s)).
  2:{ intros pos s. rewrite run_cat, run_star_set. apply newlines_then_eol. }
  generalize 0%nat.
  induction line as [|c line IH]; intros pos.
  - reflexivity.
  - cbn [star_set rstrip all_chars].
    rewrite IH, rstrip_empty_iff, LINE_CLASS_allowed_by_spec.
    destruct (all_chars is_crlf line) eqn:Hl, (is_crlf c) eqn:Hc; simpl;
      rewrite ?orb_false_r, ?orb_true_r; try reflexivity.
Qed.

Lemma rstrip_app_keep (p : ascii -> bool) (a b : string) :
  is_empty (rstrip p b) = false -> rstrip p (a ++ b) = a ++ rstrip p b.
Proof.
  intros Hb. induction a as [|c a IH]; simpl; [reflexivity|].
  rewrite IH. destruct (a ++ rstrip p b) eqn:E; [|reflexivity].
  destruct a; simpl in E; [|discriminate E].
  rewrite E in Hb. discriminate Hb.
Qed.

(** ** The line validator *)

(** What [_validate_line] does, case by case. *)
Lemma validate_line_cases (line : string) (self : DAQProvider) :
  _validate_line line self =
  if valid_by_spec line then (Ret (Some line), self)
  else (Ret None,
        mkProvider
          (logger self ++
           [Log WARNING ("Got garbage from the DAQ: " ++ rstrip is_crlf line)])
          (out_queue self) (in_queue self)).
Proof.
  unfold _validate_line. rewrite LINE_PATTERN_matches.
  destruct (valid_by_spec line); reflexivity.
Qed.

(** C1.  The validator returns the line itself, and leaves the provider as it
    is, exactly when every character of the line, its trailing CR and LF
    excluded, is a letter, a digit, one of [+-.,:()=$/#?!%_@*|~'] or a space.
    For every other line it returns [None] and the logger receives exactly
    one record, a warning. *)
Theorem validate_line_grammar (line : string) (self : DAQProvider) :
  (fst (_validate_line line self) = Ret (Some line)
   <-> valid_by_spec line = true)
  /\ _validate_line line self =
     if valid_by_spec line then (Ret (Some line), self)
     else (Ret None,
           mkProvider
             (logger self ++
              [Log WARNING ("Got garbage from the DAQ: " ++ rstrip is_crlf line)])
             (out_queue self) (in_queue self)).
Proof.
  split; [|apply validate_line_cases].
  rewrite validate_line_cases.
  destruct (valid_by_spec line); simpl; split; intros H;
    try reflexivity; discriminate H.
Qed.

(** C10.  The empty string and every string of CR and LF only are returned
    unchanged; a line in which a CR or an LF comes before some other
    character is rejected. *)
Theorem validate_line_newlines (self : DAQProvider) :
  _validate_line "" self = (Ret (Some ""), self)
  /\ (forall s, all_chars is_crlf s = true ->
                _validate_line s self = (Ret (Some s), self))
  /\ (forall a c b d e,
         is_crlf c = true -> is_crlf d = false ->
         fst (_validate_line (a ++ String c (b ++ String d e)) self)
         = Ret None).
Proof.
  split; [reflexivity|]. split.
  - intros s Hs. rewrite validate_line_cases.
    unfold valid_by_spec. now rewrite (rstrip_all _ _ Hs).
  - intros a c b d e Hc Hd. rewrite validate_line_cases.
    assert (Hg : valid_by_spec (a ++ String c (b ++ String d e)) = false).
    { unfold valid_by_spec.
      change (a ++ String c (b ++ String d e))
        with (a ++ (String c b ++ String d e)).
      assert (He : is_empty (rstrip is_crlf (String d e)) = false).
      { simpl. rewrite Hd, andb_false_r. reflexivity. }
      rewrite !rstrip_app_keep; try exact He.
      2:{ rewrite rstrip_app_keep by exact He. reflexivity. }
      rewrite !all_chars_app. simpl.
      destruct (allowed_by_spec c) eqn:Ha.
      - apply allowed_not_crlf in Ha. congruence.
      - simpl. apply andb_false_r. }
    now rewrite Hg.
Qed.

Lemma validate_line_newlines_witness :
  _validate_line (String CR (String LF (String LF (String CR ""))))
                 (mkProvider [] [] [])
  = (Ret (Some (String CR (String LF (String LF (String CR ""))))),
     mkProvider [] [] [])
  /\ fst (_validate_line ("RE 001" ++ String LF ("" ++ String "0" "45"))
                         (mkProvider [] [] [])) = Ret None.
Proof.
  split.
  - apply (proj1 (proj2 (validate_line_newlines (mkProvider [] [] [])))).
    reflexivity.
  - apply (proj2 (proj2 (validate_line_newlines (mkProvider [] [] [])))
             "RE 001" LF "" "0"%char "45"); reflexivity.
Defined.


(** ** The local provider: [get] *)

Lemma get_nonempty (w : Queue.wait) (line : string) (rest : Queue.t)
      (self : DAQProvider) :
  out_queue self = line :: rest ->
  get w self = _validate_line line (set_out_queue rest self).
Proof.
  intros Hq. unfold get, bind, out_queue_get. rewrite Hq. simpl.
  destruct (_validate_line line (set_out_queue rest self)) as [[] ?];
    reflexivity.
Qed.

Lemma get_empty (w : Queue.wait) (self : DAQProvider) :
  out_queue self = [] ->
  get w self =
  match w with
  | Queue.Block => (Blocked, self)
  | _ => (Raise (DAQIOError "Queue is empty"), self)
  end.
Proof.
  intros Hq. unfold get, bind, out_queue_get. rewrite Hq.
  destruct w; reflexivity.
Qed.

(** A line that [get] returns matches [LINE_PATTERN]. *)
Lemma get_returns_valid (w : Queue.wait) (self : DAQProvider) (line : string) :
  fst (get w self) = Ret (Some line) -> Re.matches LINE_PATTERN line = true.
Proof.
  destruct (out_queue self) as [|l rest] eqn:Hq.
  - rewrite (get_empty _ _ Hq). destruct w; discriminate.
  - rewrite (get_nonempty _ _ _ _ Hq), validate_line_cases,
      LINE_PATTERN_matches.
    destruct (valid_by_spec l) eqn:Hl; simpl; intros H; [|discriminate H].
    injection H as <-. exact Hl.
Qed.

Lemma history_valid (calls : list call) :
  forall self line,
    List.In (Ret (Some line)) (history calls self) ->
    Re.matches LINE_PATTERN line = true.
Proof.
  induction calls as [|[w|item|l] calls IH]; intros self line; simpl.
  - intros [].
  - destruct (get w self) as [r self'] eqn:Hg.
    intros [->|Hin]; [|exact (IH _ _ Hin)].
    apply (get_returns_valid w self). now rewrite Hg.
  - apply IH.
  - apply IH.
Qed.

(** C8, as the code has it.  A non-blocking [get] on an empty outbound queue
    raises [DAQIOError("Queue is empty")] and leaves the provider as it is.
    This differs from what [get] does with a line that fails validation,
    which is to return [None]. *)
Theorem get_empty_raises (self : DAQProvider) :
  out_queue self = [] ->
  get Queue.NoWait self = (Raise (DAQIOError "Queue is empty"), self)
  /\ forall w self' line rest,
       out_queue self' = line :: rest ->
       Re.matches LINE_PATTERN line = false ->
       fst (get w self') = Ret None
       /\ fst (get w self') <> fst (get Queue.NoWait self).
Proof.
  intros Hq. rewrite (get_empty _ _ Hq). split; [reflexivity|].
  intros w self' line rest Hq' Hl. rewrite LINE_PATTERN_matches in Hl.
  rewrite (get_nonempty _ _ _ _ Hq'), validate_line_cases, Hl. simpl.
  split; [reflexivity|discriminate].
Qed.

Lemma get_empty_raises_witness :
  get Queue.NoWait (mkProvider [] [] [])
  = (Raise (DAQIOError "Queue is empty"), mkProvider [] [] [])
  /\ fst (get Queue.NoWait (mkProvider [] ["a;b"] [])) = Ret None.
Proof.
  destruct (get_empty_raises (mkProvider [] [] []) eq_refl) as [Hraise Hnone].
  split; [exact Hraise|].
  exact (proj1 (Hnone Queue.NoWait (mkProvider [] ["a;b"] []) "a;b" []
                      eq_refl eq_refl)).
Defined.

(** C8 as stated fails: the outcome of a non-blocking [get] on an empty queue
    is a raised exception, not a returned signal. *)
Lemma get_empty_not_a_signal :
  ~ (forall self : DAQProvider,
        out_queue self = [] ->
        raises (fst (get Queue.NoWait self)) = false).
Proof.
  intros H. specialize (H (mkProvider [] [] []) eq_refl). discriminate H.
Qed.

(** C9.  When [get] takes a line that fails validation, it returns [None],
    the line has left the outbound queue (the rest of the queue is what
    remains), and no [get] after that returns the line, whatever is called
    and whatever the reader puts into the queue in between. *)
Theorem get_drops_rejected_line (w : Queue.wait) (self : DAQProvider)
        (line : string) (rest : Queue.t) :
  out_queue self = line :: rest ->
  Re.matches LINE_PATTERN line = false ->
  fst (get w self) = Ret None
  /\ out_queue (snd (get w self)) = rest
  /\ forall calls,
       ~ List.In (Ret (Some line)) (history calls (snd (get w self))).
Proof.
  intros Hq Hl. pose proof Hl as Hl'. rewrite LINE_PATTERN_matches in Hl'.
  rewrite (get_nonempty _ _ _ _ Hq), validate_line_cases, Hl'. simpl.
  repeat split.
  intros calls Hin. apply history_valid in Hin. congruence.
Qed.

Lemma get_drops_rejected_line_witness :
  fst (get Queue.NoWait (mkProvider [] ["DG{"; "ST 1"] [])) = Ret None
  /\ out_queue (snd (get Queue.NoWait (mkProvider [] ["DG{"; "ST 1"] [])))
     = ["ST 1"]
  /\ forall calls,
       ~ List.In (Ret (Some "DG{"))
           (history calls
              (snd (get Queue.NoWait (mkProvider [] ["DG{"; "ST 1"] [])))).
Proof.
  apply (get_drops_rejected_line Queue.NoWait
           (mkProvider [] ["DG{"; "ST 1"] []) "DG{" ["ST 1"]); reflexivity.
Defined.


(** ** Floating point *)

Section FloatingPoint.

Local Open Scope Q_scope.

(** Powers of two. *)
Lemma pow2_pos (e : Z) : 0 < 2 ^ e.
Proof. apply Qpower_0_lt. reflexivity. Qed.

Lemma pow2_succ (e : Z) : 2 ^ (e + 1) == 2 * 2 ^ e.
Proof.
  rewrite Qpower_plus by discriminate. rewrite Qpower_1_r. ring.
Qed.

Lemma pow2_le (e1 e2 : Z) : (e1 <= e2)%Z -> 2 ^ e1 <= 2 ^ e2.
Proof. intros H. apply Qpower_le_compat_l; [exact H|discriminate]. Qed.

Lemma pow2_lt_inv (e1 e2 : Z) : 2 ^ e1 < 2 ^ e2 -> (e1 < e2)%Z.
Proof. intros H. apply (Qpower_lt_compat_l_inv 2); [exact H|reflexivity]. Qed.

Lemma pow2_Z (n : Z) : (0 <= n)%Z -> inject_Z (2 ^ n) == 2 ^ n.
Proof. intros H. now rewrite Zpower_Qpower. Qed.

Lemma log2_bounds (n : Z) :
  (0 < n)%Z ->
  2 ^ Z.log2 n <= inject_Z n /\ inject_Z n < 2 * 2 ^ Z.log2 n.
Proof.
  intros Hn. destruct (Z.log2_spec n Hn) as [Hlo Hhi].
  pose proof (Z.log2_nonneg n) as H0.
  split.
  - rewrite <- pow2_Z by exact H0. now rewrite <- Zle_Qle.
  - rewrite <- pow2_succ. unfold Z.succ in Hhi.
    rewrite <- pow2_Z by lia. now rewrite <- Zlt_Qlt.
Qed.

Lemma mag_spec (x : Q) : 0 < x -> 2 ^ mag x <= x /\ x < 2 ^ (mag x + 1).
Proof.
  intros Hx. unfold mag.
  destruct x as [n d]. cbn [Qnum Qden].
  assert (Hn : (0 < n)%Z).
  { unfold Qlt in Hx. simpl in Hx. lia. }
  destruct (log2_bounds n Hn) as [Ha Ha'].
  destruct (log2_bounds (Zpos d) eq_refl) as [Hb Hb'].
  set (a := Z.log2 n) in *. set (b := Z.log2 (Zpos d)) in *.
  assert (Hq : n # d == inject_Z n / inject_Z (Zpos d)) by apply Qmake_Qdiv.
  pose proof (pow2_pos a) as HA. pose proof (pow2_pos b) as HB.
  assert (HD : 0 < inject_Z (Zpos d)) by reflexivity.
  assert (He : 2 ^ (a - b) * 2 ^ b == 2 ^ a).
  { rewrite <- Qpower_plus by discriminate. now replace (a - b + b)%Z with a by lia. }
  pose proof (pow2_pos (a - b)) as HR.
  assert (Hx' : (n # d) * inject_Z (Zpos d) == inject_Z n).
  { rewrite Hq. field. intros H. rewrite H in HD. discriminate. }
  set (X := n # d) in *. set (N := inject_Z n) in *.
  set (D := inject_Z (Zpos d)) in *. set (A := 2 ^ a) in *.
  set (B := 2 ^ b) in *. set (R := 2 ^ (a - b)) in *.
  destruct (Qle_bool R X) eqn:E.
  - apply Qle_bool_iff in E. split; [exact E|].
    fold R. rewrite pow2_succ. fold R.
    apply (Qmult_lt_r _ _ D HD). nra.
  - assert (E' : X < R).
    { apply Qnot_le_lt. intros H. apply Qle_bool_iff in H. congruence. }
    replace (a - b - 1 + 1)%Z with (a - b)%Z by lia. fold R.
    split; [|exact E'].
    assert (Hh : 2 * 2 ^ (a - b - 1) == R).
    { rewrite <- pow2_succ. unfold R.
      now replace (a - b - 1 + 1)%Z with (a - b)%Z by lia. }
    pose proof (pow2_pos (a - b - 1)) as Hh0.
    set (H2 := 2 ^ (a - b - 1)) in *.
    apply (Qmult_le_r _ _ D HD). apply (Qmult_le_r _ _ B HB). nra.
Qed.

Lemma mag_unique (x : Q) (e : Z) :
  2 ^ e <= x -> x < 2 ^ (e + 1) -> mag x = e.
Proof.
  intros Hlo Hhi.
  assert (Hx : 0 < x) by (pose proof (pow2_pos e); lra).
  destruct (mag_spec x Hx) as [Mlo Mhi].
  assert (H1 : (e < mag x + 1)%Z) by (apply pow2_lt_inv; lra).
  assert (H2 : (mag x < e + 1)%Z) by (apply pow2_lt_inv; lra).
  lia.
Qed.

Lemma mag_comp (x y : Q) : 0 < x -> x == y -> mag x = mag y.
Proof.
  intros Hx Hxy. symmetry. destruct (mag_spec x Hx) as [Mlo Mhi].
  apply mag_unique; rewrite <- Hxy; assumption.
Qed.

Lemma mag_le (x y : Q) : 0 < x -> x <= y -> (mag x <= mag y)%Z.
Proof.
  intros Hx Hxy.
  destruct (mag_spec x Hx) as [Xlo Xhi].
  destruct (mag_spec y ltac:(lra)) as [Ylo Yhi].
  assert (H : (mag x < mag y + 1)%Z) by (apply pow2_lt_inv; lra).
  lia.
Qed.

(** Rounding to the nearest integer. *)
Lemma rne_floor (q : Q) : (Qfloor q <= rne q <= Qfloor q + 1)%Z.
Proof.
  unfold rne. destruct (Qcompare _ _); [destruct (Z.even _)| |]; lia.
Qed.

Lemma rne_Z (z : Z) : rne (inject_Z z) = z.
Proof.
  unfold rne. rewrite Qfloor_Z.
  destruct (Qcompare_spec (inject_Z z - inject_Z z) (1 # 2)) as [H|H|H];
    [exfalso; lra|reflexivity|exfalso; lra].
Qed.

Lemma rne_comp (q1 q2 : Q) : q1 == q2 -> rne q1 = rne q2.
Proof.
  intros H. unfold rne. rewrite (Qfloor_comp _ _ H).
  now rewrite H.
Qed.

Lemma rne_le (q1 q2 : Q) : q1 <= q2 -> (rne q1 <= rne q2)%Z.
Proof.
  intros H. pose proof (Qfloor_resp_le _ _ H) as Hf.
  pose proof (rne_floor q1) as B1. pose proof (rne_floor q2) as B2.
  destruct (Z.eq_dec (Qfloor q1) (Qfloor q2)) as [E|N]; [|lia].
  unfold rne in *. rewrite <- E in *.
  destruct (Qcompare_spec (q1 - inject_Z (Qfloor q1)) (1 # 2)) as [H1|H1|H1];
    destruct (Qcompare_spec (q2 - inject_Z (Qfloor q1)) (1 # 2)) as [H2|H2|H2];
    try lia; try lra; destruct (Z.even (Qfloor q1)); lia.
Qed.

Lemma rne_ge (z : Z) (q : Q) : inject_Z z <= q -> (z <= rne q)%Z.
Proof. intros H. rewrite <- (rne_Z z). now apply rne_le. Qed.

Lemma rne_le_Z (z : Z) (q : Q) : q <= inject_Z z -> (rne q <= z)%Z.
Proof. intros H. rewrite <- (rne_Z z). now apply rne_le. Qed.

(** The significand of the rounded number has [prec] bits. *)
Lemma ulp_pos (x : Q) : 0 < ulp x.
Proof. apply pow2_pos. Qed.

Lemma ulp_mag (x : Q) : 2 ^ (prec - 1) * ulp x == 2 ^ mag x.
Proof.
  unfold ulp. rewrite <- Qpower_plus by discriminate.
  now replace (prec - 1 + (mag x - (prec - 1)))%Z with (mag x) by lia.
Qed.

Lemma significand_bounds (x : Q) :
  0 < x ->
  (2 ^ (prec - 1) <= rne (x / ulp x) <= 2 ^ prec)%Z.
Proof.
  intros Hx. destruct (mag_spec x Hx) as [Mlo Mhi].
  pose proof (ulp_pos x) as Hu. pose proof (ulp_mag x) as Hm.
  rewrite pow2_succ in Mhi.
  split.
  - apply rne_ge. rewrite pow2_Z by (unfold prec; lia).
    apply Qle_shift_div_l; [exact Hu|]. lra.
  - apply rne_le_Z.
    replace prec with (prec - 1 + 1)%Z at 1 by lia.
    rewrite pow2_Z by (unfold prec; lia). rewrite pow2_succ.
    apply Qle_shift_div_r; [exact Hu|]. lra.
Qed.

Lemma round_pos_bounds (x : Q) :
  0 < x -> 2 ^ mag x <= round_pos x /\ round_pos x <= 2 ^ (mag x + 1).
Proof.
  intros Hx. destruct (significand_bounds x Hx) as [Slo Shi].
  pose proof (ulp_pos x) as Hu. pose proof (ulp_mag x) as Hm.
  unfold round_pos.
  rewrite Zle_Qle in Slo, Shi.
  rewrite pow2_Z in Slo by (unfold prec; lia).
  replace prec with (prec - 1 + 1)%Z in Shi at 1 by lia.
  rewrite pow2_Z in Shi by (unfold prec; lia). rewrite pow2_succ in Shi.
  rewrite pow2_succ, <- Hm.
  set (k := inject_Z (rne (x / ulp x))) in *.
  set (P := 2 ^ (prec - 1)) in *. set (u := ulp x) in *.
  split; nra.
Qed.

Lemma ulp_comp (x y : Q) : 0 < x -> x == y -> ulp x = ulp y.
Proof. intros Hx H. unfold ulp. now rewrite (mag_comp x y Hx H). Qed.

Lemma round_pos_comp (x y : Q) : 0 < x -> x == y -> round_pos x == round_pos y.
Proof.
  intros Hx H. unfold round_pos. rewrite <- (ulp_comp x y Hx H).
  assert (E : rne (x / ulp x) = rne (y / ulp x)).
  { apply rne_comp. apply Qdiv_comp; [exact H|reflexivity]. }
  rewrite E. reflexivity.
Qed.

Lemma round_pos_le (x y : Q) :
  0 < x -> x <= y -> round_pos x <= round_pos y.
Proof.
  intros Hx Hxy. assert (Hy : 0 < y) by lra.
  pose proof (mag_le x y Hx Hxy) as Hm.
  destruct (Z.eq_dec (mag x) (mag y)) as [E|N].
  - unfold round_pos, ulp. rewrite <- E. fold (ulp x).
    pose proof (ulp_pos x) as Hu.
    apply Qmult_le_compat_r; [|lra].
    rewrite <- Zle_Qle. apply rne_le.
    apply Qle_shift_div_l; [exact Hu|].
    setoid_replace (x / ulp x * ulp x) with x; [exact Hxy|].
    field. lra.
  - destruct (round_pos_bounds x Hx) as [_ Hhi].
    destruct (round_pos_bounds y Hy) as [Hlo _].
    pose proof (pow2_le (mag x + 1) (mag y) ltac:(lia)). lra.
Qed.

Lemma round_pos_pos (x : Q) : 0 < x -> 0 < round_pos x.
Proof.
  intros Hx. destruct (round_pos_bounds x Hx) as [Hlo _].
  pose proof (pow2_pos (mag x)). lra.
Qed.

Lemma round_pos_fixed (x : Q) :
  0 < x -> round_pos (round_pos x) == round_pos x.
Proof.
  intros Hx. destruct (significand_bounds x Hx) as [Slo Shi].
  pose proof (ulp_pos x) as Hu. pose proof (ulp_mag x) as Hm.
  pose proof (round_pos_pos x Hx) as Hpos.
  set (k := rne (x / ulp x)) in *.
  assert (Hy : round_pos x == inject_Z k * ulp x) by reflexivity.
  assert (HP : inject_Z (2 ^ (prec - 1)) == 2 ^ (prec - 1))
    by (apply pow2_Z; unfold prec; lia).
  assert (HP' : inject_Z (2 ^ prec) == 2 * 2 ^ (prec - 1)).
  { rewrite <- pow2_succ. replace (prec - 1 + 1)%Z with prec by lia.
    apply pow2_Z. unfold prec. lia. }
  destruct (Z.eq_dec k (2 ^ prec)) as [E|N].
  - (* the significand overflows into the next binade *)
    assert (Hval : round_pos x == 2 ^ (mag x + 1)).
    { rewrite Hy, E, HP', pow2_succ, <- Hm. ring. }
    assert (Hmag : mag (round_pos x) = (mag x + 1)%Z).
    { apply mag_unique; rewrite Hval; [apply Qle_refl|].
      rewrite (pow2_succ (mag x + 1)). pose proof (pow2_pos (mag x + 1)). lra. }
    unfold round_pos at 1. unfold ulp at 1 2. rewrite Hmag.
    replace (mag x + 1 - (prec - 1))%Z with (mag x - (prec - 1) + 1)%Z by lia.
    assert (HU : 2 ^ (mag x - (prec - 1) + 1) == 2 * ulp x)
      by apply pow2_succ.
    assert (Harg : round_pos x / 2 ^ (mag x - (prec - 1) + 1)
                   == inject_Z (2 ^ (prec - 1))).
    { rewrite HU, Hval, HP, pow2_succ, <- Hm. field. lra. }
    rewrite (rne_comp _ _ Harg), rne_Z.
    rewrite HU, Hval, HP, pow2_succ, <- Hm. ring.
  - (* the significand stays in the binade *)
    assert (Hk : (k < 2 ^ prec)%Z) by lia.
    rewrite Zle_Qle in Slo. rewrite Zlt_Qlt in Hk. rewrite HP in Slo.
    rewrite HP' in Hk.
    assert (Hmag : mag (round_pos x) = mag x).
    { apply mag_unique; rewrite Hy.
      - rewrite <- Hm. apply Qmult_le_compat_r; lra.
      - rewrite pow2_succ, <- Hm.
        set (K := inject_Z k) in *. set (P := 2 ^ (prec - 1)) in *.
        set (u := ulp x) in *. nra. }
    unfold round_pos at 1. unfold ulp at 1 2. rewrite Hmag. fold (ulp x).
    rewrite (rne_comp _ (inject_Z k)).
    + now rewrite rne_Z.
    + rewrite Hy. field. lra.
Qed.

(** Rounding to the nearest float is monotone and leaves floats alone. *)
Lemma round_nearest_0 : round_nearest 0 == 0.
Proof. reflexivity. Qed.

Lemma round_nearest_pos (x : Q) : 0 < x -> round_nearest x = round_pos x.
Proof.
  intros H. unfold round_nearest.
  destruct (Qcompare_spec x 0) as [E|E|E]; [exfalso; lra|exfalso; lra|reflexivity].
Qed.

Lemma round_nearest_neg (x : Q) : x < 0 -> round_nearest x = - round_pos (- x).
Proof.
  intros H. unfold round_nearest.
  destruct (Qcompare_spec x 0) as [E|E|E]; [exfalso; lra|reflexivity|exfalso; lra].
Qed.

Lemma round_nearest_zero (x : Q) : x == 0 -> round_nearest x = 0.
Proof.
  intros H. unfold round_nearest.
  destruct (Qcompare_spec x 0) as [E|E|E]; [reflexivity|exfalso; lra|exfalso; lra].
Qed.

Lemma round_nearest_le (x y : Q) : x <= y -> round_nearest x <= round_nearest y.
Proof.
  intros Hxy.
  destruct (Qcompare_spec x 0) as [Ex|Ex|Ex];
    destruct (Qcompare_spec y 0) as [Ey|Ey|Ey]; try (exfalso; lra).
  - rewrite (round_nearest_zero x Ex), (round_nearest_zero y Ey). apply Qle_refl.
  - rewrite (round_nearest_zero x Ex), (round_nearest_pos y Ey).
    pose proof (round_pos_pos y Ey). lra.
  - rewrite (round_nearest_neg x Ex), (round_nearest_zero y Ey).
    pose proof (round_pos_pos (- x) ltac:(lra)). lra.
  - rewrite (round_nearest_neg x Ex), (round_nearest_neg y Ey).
    pose proof (round_pos_le (- y) (- x) ltac:(lra) ltac:(lra)). lra.
  - rewrite (round_nearest_neg x Ex), (round_nearest_pos y Ey).
    pose proof (round_pos_pos (- x) ltac:(lra)).
    pose proof (round_pos_pos y Ey). lra.
  - rewrite (round_nearest_pos x Ex), (round_nearest_pos y Ey).
    now apply round_pos_le.
Qed.

Lemma round_nearest_fixed (x : Q) :
  round_nearest (round_nearest x) == round_nearest x.
Proof.
  destruct (Qcompare_spec x 0) as [Ex|Ex|Ex].
  - rewrite (round_nearest_zero x Ex). reflexivity.
  - rewrite (round_nearest_neg x Ex).
    pose proof (round_pos_pos (- x) ltac:(lra)) as Hp.
    rewrite round_nearest_neg by lra.
    rewrite (round_pos_comp (- - round_pos (- x)) (round_pos (- x)));
      [|lra|ring].
    rewrite round_pos_fixed by lra. reflexivity.
  - rewrite (round_nearest_pos x Ex).
    pose proof (round_pos_pos x Ex) as Hp.
    rewrite round_nearest_pos by lra.
    now apply round_pos_fixed.
Qed.

End FloatingPoint.

Lemma binary64_laws : FloatLaws binary64.
Proof.
  split; simpl.
  - apply round_nearest_le.
  - apply round_nearest_fixed.
  - apply round_nearest_0.
Qed.

Lemma exact_laws : FloatLaws exact_arithmetic.
Proof.
  split; simpl.
  - intros x y H. exact H.
  - intros x. reflexivity.
  - reflexivity.
Qed.

(** The float literals of the reader loop. *)
Example binary64_literals :
  Qred (min_sleep_time (F := binary64))
  = (5764607523034235 # 576460752303423488)%Q
  /\ Qred (max_sleep_time (F := binary64))
     = (3602879701896397 # 18014398509481984)%Q.
Proof. split; vm_compute; reflexivity. Qed.


(** ** Acquiring the serial port *)

Lemma sleeps_app (a b : list effect) :
  sleeps (a ++ b) = (sleeps a ++ sleeps b)%list.
Proof.
  induction a as [|[] a IH]; simpl; rewrite ?IH; reflexivity.
Qed.

Lemma writes_app (a b : list effect) :
  writes (a ++ b) = (writes a ++ writes b)%list.
Proof.
  induction a as [|[] a IH]; simpl; rewrite ?IH; reflexivity.
Qed.

(** Attempts that fail to open the device only add to what happens next; each
    of them ends in one pause of five seconds. *)
Lemma get_serial_port_retries (fails : list attempt) :
  Forall open_fails fails ->
  forall world,
    fst (get_serial_port (fails ++ world)) = fst (get_serial_port world)
    /\ snd (get_serial_port (fails ++ world))
       = (snd (get_serial_port fails) ++ snd (get_serial_port world))%list
    /\ sleeps (snd (get_serial_port fails))
       = repeat 5%Q (List.length fails).
Proof.
  induction 1 as [|a fails [[dev Hdev] [msg Hopen]] _ IH]; intros world.
  - simpl. repeat split; reflexivity.
  - destruct (IH world) as (Hfst & Hsnd & Hsl).
    simpl. rewrite Hdev, Hopen.
    destruct (get_serial_port (fails ++ world)) as [r later].
    destruct (get_serial_port fails) as [r' later'].
    simpl in *. subst. repeat split.
    simpl. now rewrite Hsl.
Qed.

Lemma hook_missing_find_dev (a : attempt) :
  hook_missing a ->
  find_dev a = inr (OSError "Can not find binary which_tty_daq").
Proof.
  intros [[msg Hp] He]. unfold find_dev. now rewrite Hp, He.
Qed.

(** C6.  After any number of attempts that failed to open the device, each
    followed by one pause of five seconds, [get_serial_port]
    - raises [OSError] in the attempt in which the discovery hook is neither
      on the search path nor in the package, without a pause, a log record or
      a further attempt (and so does the constructor, when this is the first
      attempt);
    - returns the open port in the attempt in which the device opens;
    - is still retrying when all the attempts have failed to open it. *)
Theorem acquire_fatal_or_retried (fails : list attempt) :
  Forall open_fails fails ->
  (forall a world,
      hook_missing a ->
      get_serial_port (fails ++ a :: world)
      = (Failed (OSError "Can not find binary which_tty_daq"),
         snd (get_serial_port fails))
      /\ __init__ (a :: world)
         = (Raise (OSError "Can not find binary which_tty_daq"), []))
  /\ (forall a world dev,
         find_dev a = inl dev -> opening a = OpenOk ->
         fst (get_serial_port (fails ++ a :: world))
         = Connected (mkSerial dev true)
         /\ sleeps (snd (get_serial_port (fails ++ a :: world)))
            = repeat 5%Q (List.length fails))
  /\ fst (get_serial_port fails) = Retrying
  /\ sleeps (snd (get_serial_port fails)) = repeat 5%Q (List.length fails).
Proof.
  intros Hfails. split; [|split; [|split]].
  - intros a world Hmiss.
    destruct (get_serial_port_retries fails Hfails (a :: world))
      as (Hfst & Hsnd & _).
    pose proof (hook_missing_find_dev a Hmiss) as Hfind.
    assert (Hone : get_serial_port (a :: world)
                   = (Failed (OSError "Can not find binary which_tty_daq"), [])).
    { simpl. now rewrite Hfind. }
    split.
    + rewrite (surjective_pairing (get_serial_port (fails ++ a :: world))).
      rewrite Hfst, Hsnd, Hone. simpl. now rewrite app_nil_r.
    + unfold __init__. now rewrite Hone.
  - intros a world dev Hdev Hopen.
    destruct (get_serial_port_retries fails Hfails (a :: world))
      as (Hfst & Hsnd & Hsl).
    rewrite Hfst, Hsnd, sleeps_app, Hsl. simpl. rewrite Hdev, Hopen. simpl.
    split; [reflexivity|apply app_nil_r].
  - destruct (get_serial_port_retries fails Hfails []) as (Hfst & _ & _).
    rewrite app_nil_r in Hfst. exact Hfst.
  - apply (get_serial_port_retries fails Hfails []).
Qed.

Lemma acquire_fatal_or_retried_witness :
  get_serial_port
    ([mkAttempt (Prints "ttyUSB0") false (NotRun "") (OpenFails "busy");
      mkAttempt (Prints "ttyUSB0") false (NotRun "") (OpenFails "busy")]
       ++ [mkAttempt (NotRun "No such file or directory") false (NotRun "") OpenOk])
  = (Failed (OSError "Can not find binary which_tty_daq"),
     snd (get_serial_port
            [mkAttempt (Prints "ttyUSB0") false (NotRun "") (OpenFails "busy");
             mkAttempt (Prints "ttyUSB0") false (NotRun "") (OpenFails "busy")])).
Proof.
  apply (proj1 (acquire_fatal_or_retried
           [mkAttempt (Prints "ttyUSB0") false (NotRun "") (OpenFails "busy");
            mkAttempt (Prints "ttyUSB0") false (NotRun "") (OpenFails "busy")]
           ltac:(repeat constructor; eexists; reflexivity))
           (mkAttempt (NotRun "No such file or directory") false (NotRun "") OpenOk)
           []
           ltac:(split; [eexists; reflexivity | reflexivity])).
Defined.

(** ** The reader loop: what is pushed *)

Lemma raw_lines_readline (c : ascii) (buf : string) :
  raw_lines (String c buf)
  = fst (readline (String c buf)) :: raw_lines (snd (readline (String c buf))).
Proof.
  revert c. induction buf as [|d buf IH]; intros c.
  - simpl. destruct (Ascii.eqb c LF); reflexivity.
  - change (raw_lines (String c (String d buf)))
      with (if Ascii.eqb c LF then String c "" :: raw_lines (String d buf)
            else match raw_lines (String d buf) with
                 | [] => [String c ""]
                 | line :: lines => String c line :: lines
                 end).
    change (readline (String c (String d buf)))
      with (if Ascii.eqb c LF then (String c "", String d buf)
            else let (line, rest) := readline (String d buf) in
                 (String c line, rest)).
    destruct (Ascii.eqb c LF); [reflexivity|].
    rewrite (IH d).
    destruct (readline (String d buf)) as [line rest]. reflexivity.
Qed.

Lemma readline_shorter (c : ascii) (buf : string) :
  (String.length (snd (readline (String c buf))) <= String.length buf)%nat.
Proof.
  revert c. induction buf as [|d buf IH]; intros c.
  - simpl. destruct (Ascii.eqb c LF); simpl; lia.
  - change (readline (String c (String d buf)))
      with (if Ascii.eqb c LF then (String c "", String d buf)
            else let (line, rest) := readline (String d buf) in
                 (String c line, rest)).
    destruct (Ascii.eqb c LF); [simpl; lia|].
    specialize (IH d).
    destruct (readline (String d buf)) as [line rest]. simpl in *. lia.
Qed.

Lemma readline_ascii (buf : string) :
  all_chars is_ascii buf = true ->
  all_chars is_ascii (fst (readline buf)) = true
  /\ all_chars is_ascii (snd (readline buf)) = true.
Proof.
  induction buf as [|c buf IH]; simpl; [now split|].
  intros H. apply andb_true_iff in H as [Hc Hb].
  destruct (Ascii.eqb c LF); simpl.
  - rewrite Hc. now split.
  - destruct (IH Hb) as [H1 H2].
    destruct (readline buf) as [line rest]. simpl in *.
    rewrite Hc, H1. now split.
Qed.

Lemma rstrip_keeps (p q : ascii -> bool) (s : string) :
  all_chars q s = true -> all_chars q (rstrip p s) = true.
Proof.
  induction s as [|c s IH]; simpl; [reflexivity|].
  intros H. apply andb_true_iff in H as [Hc Hs].
  destruct (is_empty (rstrip p s) && p c); simpl; [reflexivity|].
  now rewrite Hc, IH.
Qed.

Lemma lstrip_keeps (p q : ascii -> bool) (s : string) :
  all_chars q s = true -> all_chars q (lstrip p s) = true.
Proof.
  induction s as [|c s IH]; simpl; [reflexivity|].
  intros H. pose proof H as H'. apply andb_true_iff in H as [Hc Hs].
  destruct (p c); [now apply IH|exact H'].
Qed.

(** A line of 7-bit bytes is received as its [strip()]. *)
Lemma received_ascii (raw : string) :
  all_chars is_ascii raw = true -> received raw = inl (strip raw).
Proof.
  intros H. unfold received, decode, strip.
  now rewrite rstrip_keeps by now apply lstrip_keeps.
Qed.

Section Drain.

Context {Sink : Type} (emit : string -> Sink -> Sink).

(** The inner loop of the reader, unrolled once. *)
Lemma drain_ascii :
  forall fuel buf sink,
    (String.length buf <= fuel)%nat ->
    all_chars is_ascii buf = true ->
    drain Sink emit fuel buf sink
    = Drained
        (fold_left (fun s raw => emit (strip raw) s) (raw_lines buf) sink).
Proof.
  induction fuel as [|fuel IH]; intros buf sink Hlen Hascii.
  - destruct buf; [reflexivity|simpl in Hlen; lia].
  - destruct buf as [|c buf]; [reflexivity|].
    rewrite raw_lines_readline.
    pose proof (readline_shorter c buf) as Hshort.
    destruct (readline_ascii _ Hascii) as [Hline Hrest].
    cbn [drain inWaiting String.length Nat.eqb].
    destruct (readline (String c buf)) as [line rest]. simpl in *.
    rewrite (received_ascii _ Hline).
    apply IH; [lia|exact Hrest].
Qed.

(** More fuel than the length of the buffer changes nothing: the loop has
    ended by then. *)
Lemma drain_enough :
  forall fuel fuel' buf sink,
    (String.length buf <= fuel)%nat ->
    (String.length buf <= fuel')%nat ->
    drain Sink emit fuel buf sink = drain Sink emit fuel' buf sink.
Proof.
  induction fuel as [|fuel IH]; intros fuel' buf sink Hlen Hlen'.
  - destruct buf; [now destruct fuel'|simpl in Hlen; lia].
  - destruct buf as [|c buf]; [now destruct fuel'|].
    destruct fuel' as [|fuel']; [simpl in Hlen'; lia|].
    pose proof (readline_shorter c buf) as Hshort.
    cbn [drain inWaiting String.length Nat.eqb].
    destruct (readline (String c buf)) as [raw rest]. simpl in *.
    destruct (received raw) as [line|e]; [|reflexivity].
    apply IH; lia.
Qed.

Lemma drain_fuel (fuel : nat) (buf : string) (sink : Sink) :
  (String.length buf <= fuel)%nat ->
  drain Sink emit fuel buf sink = read_pending emit buf sink.
Proof. intros H. apply drain_enough; [exact H|lia]. Qed.

Lemma read_pending_ascii (buf : string) (sink : Sink) :
  all_chars is_ascii buf = true ->
  read_pending emit buf sink
  = Drained (fold_left (fun s raw => emit (strip raw) s) (raw_lines buf) sink).
Proof. intros H. apply drain_ascii; [lia|exact H]. Qed.

End Drain.

Lemma fold_put (f : string -> string) (lines : list string) :
  forall q : Queue.t,
    fold_left (fun s raw => Queue.put (f raw) s) lines q
    = (q ++ map f lines)%list.
Proof.
  induction lines as [|l lines IH]; intros q; simpl.
  - now rewrite app_nil_r.
  - rewrite IH. unfold Queue.put. now rewrite <- app_assoc.
Qed.

Lemma lstrip_split (p : ascii -> bool) (s : string) :
  exists lead, s = lead ++ lstrip p s /\ all_chars p lead = true.
Proof.
  induction s as [|c s (lead & Hs & Hl)]; simpl.
  - exists "". now split.
  - destruct (p c) eqn:Hc.
    + exists (String c lead). simpl. rewrite Hc, Hl. split; [|reflexivity].
      now rewrite <- Hs.
    + exists "". now split.
Qed.

Lemma rstrip_idem (p : ascii -> bool) (s : string) :
  rstrip p (rstrip p s) = rstrip p s.
Proof.
  induction s as [|c s IH]; simpl; [reflexivity|].
  destruct (is_empty (rstrip p s)) eqn:He; simpl.
  - destruct (p c) eqn:Hc; simpl; [reflexivity|].
    destruct (rstrip p s); [|discriminate He]. simpl. now rewrite Hc.
  - rewrite IH, He. reflexivity.
Qed.

Lemma lstrip_fixed (p : ascii -> bool) (s : string) :
  lstrip p (lstrip p s) = lstrip p s.
Proof.
  induction s as [|c s IH]; simpl; [reflexivity|].
  destruct (p c) eqn:Hc; [exact IH|]. simpl. now rewrite Hc.
Qed.

(** [rstrip] does not touch the first character when it leaves any. *)
Lemma lstrip_rstrip_fixed (p : ascii -> bool) (s : string) :
  lstrip p s = s -> lstrip p (rstrip p s) = rstrip p s.
Proof.
  destruct s as [|c s]; [reflexivity|].
  simpl. destruct (p c) eqn:Hc.
  - intros H. exfalso.
    assert (Hlen : forall t,
               (String.length (lstrip p t) <= String.length t)%nat).
    { induction t as [|d t IHt]; simpl; [lia|]. destruct (p d); simpl; lia. }
    specialize (Hlen s). rewrite H in Hlen. simpl in Hlen. lia.
  - intros _. rewrite andb_false_r. simpl. now rewrite Hc.
Qed.

(** What [strip] removes and what it leaves. *)
Lemma strip_spec (raw : string) :
  (exists lead trail,
      raw = lead ++ strip raw ++ trail
      /\ all_chars is_whitespace lead = true
      /\ all_chars is_whitespace trail = true)
  /\ lstrip is_whitespace (strip raw) = strip raw
  /\ rstrip is_whitespace (strip raw) = strip raw.
Proof.
  unfold strip. split; [|split].
  - destruct (lstrip_split is_whitespace raw) as (lead & Hraw & Hlead).
    destruct (rstrip_split is_whitespace (lstrip is_whitespace raw))
      as (trail & Hl & Htrail).
    exists lead, trail. repeat split; try assumption.
    now rewrite <- Hl.
  - apply lstrip_rstrip_fixed, lstrip_fixed.
  - apply rstrip_idem.
Qed.

Lemma read_one_poll {F : Float} (data : string) (self : BaseDAQConnection)
      (q : Queue.t) :
  running self = true ->
  all_chars is_ascii data = true ->
  shared_of (DAQConnection_read [Poll data] self q)
  = (q ++ map strip (raw_lines data))%list.
Proof.
  intros Hrun Hascii.
  unfold DAQConnection_read, read. cbn [read_loop]. rewrite Hrun.
  unfold read_body. rewrite (read_pending_ascii _ _ _ Hascii), fold_put.
  destruct data as [|c data]; simpl; rewrite Hrun; simpl.
  - now rewrite app_nil_r.
  - reflexivity.
Qed.

(** C2, as the code has it.  What the reader loop pushes for a raw line of
    7-bit bytes is the line without its leading and its trailing white space
    (space, TAB, LF, CR, VT and FF), and nothing else is removed or changed:
    the raw line is white space, then the pushed string, then white space, and
    the pushed string neither starts nor ends with white space. *)
Theorem read_pushes_stripped_lines {F : Float} (data : string)
        (self : BaseDAQConnection) (q : Queue.t) :
  running self = true ->
  all_chars is_ascii data = true ->
  shared_of (DAQConnection_read [Poll data] self q)
  = (q ++ map strip (raw_lines data))%list
  /\ forall raw,
       (exists lead trail,
           raw = lead ++ strip raw ++ trail
           /\ all_chars is_whitespace lead = true
           /\ all_chars is_whitespace trail = true)
       /\ lstrip is_whitespace (strip raw) = strip raw
       /\ rstrip is_whitespace (strip raw) = strip raw.
Proof.
  intros Hrun Hascii. split.
  - now apply read_one_poll.
  - apply strip_spec.
Qed.

Lemma read_pushes_stripped_lines_witness :
  shared_of (DAQConnection_read (F := binary64)
               [Poll ("RE 00123 00045" ++ String LF "")]
               (mkConnection true (mkSerial "/dev/ttyUSB0" true) []) [])
  = ([] ++ map strip (raw_lines ("RE 00123 00045" ++ String LF "")))%list.
Proof.
  apply (proj1 (read_pushes_stripped_lines (F := binary64)
                  ("RE 00123 00045" ++ String LF "")
                  (mkConnection true (mkSerial "/dev/ttyUSB0" true) []) []
                  eq_refl eq_refl)).
Defined.

(** C2 as stated fails: the spaces around a line are removed with its CR and
    LF. *)
Lemma read_strips_spaces :
  shared_of (DAQConnection_read (F := binary64)
               [Poll (" ST " ++ String CR (String LF ""))]
               (mkConnection true (mkSerial "/dev/ttyUSB0" true) []) [])
  = ["ST"]
  /\ rstrip is_crlf (" ST " ++ String CR (String LF "")) = " ST "
  /\ ~ (forall (F : Float) data self q,
           running self = true -> all_chars is_ascii data = true ->
           shared_of (DAQConnection_read [Poll data] self q)
           = (q ++ map (rstrip is_crlf) (raw_lines data))%list).
Proof.
  split; [reflexivity|]. split; [reflexivity|].
  intros H.
  specialize (H binary64 (" ST " ++ String CR (String LF ""))
                (mkConnection true (mkSerial "/dev/ttyUSB0" true) []) []
                eq_refl eq_refl).
  discriminate H.
Qed.

(** ** The reader loop: the backoff interval *)

Section Rounding.

Context {F : Float} {HF : FloatLaws F}.

Lemma bounds_ordered :
  (0 <= min_sleep_time)%Q /\ (min_sleep_time <= max_sleep_time)%Q.
Proof.
  unfold min_sleep_time, max_sleep_time.
  pose proof nearest_0 as H0.
  pose proof (nearest_le 0 0.01 ltac:(lra)) as H1.
  pose proof (nearest_le 0.01 0.2 ltac:(lra)) as H2.
  split; lra.
Qed.

Lemma half_le (t : Q) : (0 <= t)%Q -> (t / 2 <= t)%Q.
Proof.
  intros H. unfold Qdiv.
  setoid_replace (/ 2)%Q with (1 # 2)%Q by reflexivity. lra.
Qed.

Lemma max_floor (t : Q) :
  is_float t -> within_bounds t ->
  is_float (max (nearest (t / 2)) min_sleep_time)
  /\ within_bounds (max (nearest (t / 2)) min_sleep_time).
Proof.
  unfold within_bounds, is_float, max. intros Hfl [Hlo Hhi].
  destruct bounds_ordered as [H0 Hmm].
  destruct (Qle_bool min_sleep_time (nearest (t / 2))) eqn:E.
  - apply Qle_bool_iff in E.
    split; [apply nearest_float|]. split; [exact E|].
    pose proof (nearest_le (t / 2) t (half_le t ltac:(lra))) as Hle. lra.
  - split; [apply nearest_float|]. split; lra.
Qed.

Lemma min_ceiling (t : Q) :
  is_float t -> within_bounds t ->
  is_float (min (nearest (1.5 * t)) max_sleep_time)
  /\ within_bounds (min (nearest (1.5 * t)) max_sleep_time).
Proof.
  unfold within_bounds, is_float, min. intros Hfl [Hlo Hhi].
  destruct bounds_ordered as [H0 Hmm].
  destruct (Qle_bool (nearest (1.5 * t)) max_sleep_time) eqn:E.
  - apply Qle_bool_iff in E.
    split; [apply nearest_float|]. split; [|exact E].
    pose proof (nearest_le t (1.5 * t) ltac:(lra)) as Hle. lra.
  - split; [apply nearest_float|]. split; lra.
Qed.

End Rounding.

Section Backoff.

Context {F : Float} {HF : FloatLaws F}.
Context {Sink : Type} (emit : string -> Sink -> Sink).

Lemma reconnect_keeps_interval world t self (sink : Sink) t' self' sink' :
  reconnect world t self sink = Looping t' self' sink' -> t' = t.
Proof.
  unfold reconnect.
  destruct (get_serial_port world) as [[p|e|] es]; intros H;
    now inversion H.
Qed.

Lemma read_body_bounds ev t self (sink : Sink) t' self' sink' :
  is_float t /\ within_bounds t ->
  read_body emit ev t self sink = Looping t' self' sink' ->
  is_float t' /\ within_bounds t'.
Proof.
  intros [Hfl Ht]. unfold read_body. destruct ev as [data|data world].
  - destruct (negb (Nat.eqb (inWaiting data) 0)).
    + destruct (read_pending emit data sink); intros H; inversion H; subst.
      now apply max_floor.
    + intros H; inversion H; subst. now apply min_ceiling.
  - destruct (read_pending emit data sink); [|discriminate].
    intros H. apply reconnect_keeps_interval in H. now subst.
Qed.

Lemma read_loop_bounds (events : list hw_event) :
  forall t self sink,
    is_float t /\ within_bounds t ->
    match read_loop emit events t self sink with
    | Looping t' _ _ => within_bounds t'
    | _ => True
    end.
Proof.
  induction events as [|ev events IH]; intros t self sink Ht; simpl.
  - destruct (running self); [exact (proj2 Ht)|exact I].
  - destruct (running self); [|exact I].
    destruct (read_body emit ev t self sink) as [| t' self' sink' | | |] eqn:Hb;
      try exact I.
    apply IH. exact (read_body_bounds _ _ _ _ _ _ _ Ht Hb).
Qed.

(** C5.  The reader loop starts with the interval [min_sleep_time], 10 ms.
    A turn that finds data pending replaces the interval [t] by
    [max(t / 2, min_sleep_time)], a turn that finds none by
    [min(1.5 * t, max_sleep_time)], and whatever the device does, turn after
    turn, the interval with which the loop goes on lies between
    [min_sleep_time] and [max_sleep_time], 200 ms.  This holds for the loop of
    [DAQConnection] and for that of [DAQServer], which differ in [emit]
    only, and for every rounding that has the properties [FloatLaws]. *)
Theorem backoff_within_bounds (events : list hw_event)
        (self : BaseDAQConnection) (sink : Sink) :
  match read emit events self sink with
  | Looping t _ _ => within_bounds t
  | _ => True
  end
  /\ (forall t c data,
         all_chars is_ascii (String c data) = true ->
         exists self' sink',
           read_body emit (Poll (String c data)) t self sink
           = Looping (max (nearest (t / 2)) min_sleep_time) self' sink')
  /\ (forall t,
         exists self',
           read_body emit (Poll "") t self sink
           = Looping (min (nearest (1.5 * t)) max_sleep_time) self' sink).
Proof.
  split; [|split].
  - apply read_loop_bounds. destruct bounds_ordered as [H0 Hmm].
    unfold is_float, within_bounds. split; [apply nearest_float|].
    split; lra.
  - intros t c data Hascii. unfold read_body.
    rewrite (read_pending_ascii emit _ _ Hascii). simpl. eauto.
  - intros t. unfold read_body. simpl. eauto.
Qed.

End Backoff.

Lemma backoff_within_bounds_witness :
  match read (F := binary64) Queue.put
             [Poll ""; Poll ""; Poll ("DS" ++ String LF ""); Poll "";
              Fault "" [mkAttempt (Prints "ttyUSB0") false (NotRun "") OpenOk];
              Poll ""; Poll ""; Poll ""; Poll ""; Poll ""; Poll ""; Poll ""]
             (mkConnection true (mkSerial "/dev/ttyUSB0" true) []) []
  with
  | Looping t _ _ => within_bounds (F := binary64) t
  | _ => True
  end.
Proof.
  apply (proj1 (backoff_within_bounds
                  (F := binary64) (HF := binary64_laws) Queue.put
                  [Poll ""; Poll ""; Poll ("DS" ++ String LF ""); Poll "";
                   Fault "" [mkAttempt (Prints "ttyUSB0") false (NotRun "") OpenOk];
                   Poll ""; Poll ""; Poll ""; Poll ""; Poll ""; Poll ""; Poll ""]
                  (mkConnection true (mkSerial "/dev/ttyUSB0" true) []) [])).
Defined.

(** ** The reader loop: I/O errors *)

Lemma get_serial_port_open (world : list attempt) :
  forall p es, get_serial_port world = (Connected p, es) -> is_open p = true.
Proof.
  induction world as [|a world IH]; intros p es; simpl; [discriminate|].
  destruct (find_dev a) as [dev|e]; [|discriminate].
  destruct (opening a).
  - intros H. now inversion H.
  - destruct (get_serial_port world) as [r later].
    intros H. inversion H; subst. now apply (IH p later).
Qed.

Lemma get_serial_port_no_write (world : list attempt) :
  writes (snd (get_serial_port world)) = [].
Proof.
  induction world as [|a world IH]; simpl; [reflexivity|].
  destruct (find_dev a) as [dev|e]; [|reflexivity].
  destruct (opening a); [reflexivity|].
  destruct (get_serial_port world) as [r later]. simpl in *. exact IH.
Qed.

(** C7, as the code has it.  When the port raises an I/O or OS error in a turn
    of the reader loop, after the lines of [data] were read and pushed, the
    loop logs the error, closes the port and calls [get_serial_port].  If that
    returns a port, the port is open and the loop goes on over it with the
    interval it had, the same running flag and the lines pushed so far: no
    exception leaves that turn.  If [get_serial_port] raises, as it does when
    the discovery hook cannot be located, that exception leaves the loop. *)
Theorem read_reacquires_after_io_error {F : Float} {Sink : Type}
        (emit : string -> Sink -> Sink) (data : string) (world : list attempt)
        (events : list hw_event) (t : Q) (self : BaseDAQConnection)
        (sink : Sink) :
  running self = true ->
  all_chars is_ascii data = true ->
  let pushed :=
    fold_left (fun s raw => emit (strip raw) s) (raw_lines data) sink in
  let handled := (trace self ++ [Logged (Log ERROR "IOError");
                                 Closed (port (serial_port self))])%list in
  (forall p es,
      get_serial_port world = (Connected p, es) ->
      is_open p = true
      /\ read_loop emit (Fault data world :: events) t self sink
         = read_loop emit events t (mkConnection true p (handled ++ es)) pushed)
  /\ (forall e es,
         get_serial_port world = (Failed e, es) ->
         read_loop emit (Fault data world :: events) t self sink
         = Escaped e
             (mkConnection true (mkSerial (port (serial_port self)) false)
                           (handled ++ es))
             pushed).
Proof.
  intros Hrun Hascii pushed handled. split.
  - intros p es Hget. split; [exact (get_serial_port_open _ _ _ Hget)|].
    cbn [read_loop]. rewrite Hrun. unfold read_body.
    rewrite (read_pending_ascii emit _ _ Hascii).
    unfold reconnect. rewrite Hget. simpl. rewrite Hrun. reflexivity.
  - intros e es Hget.
    cbn [read_loop]. rewrite Hrun. unfold read_body.
    rewrite (read_pending_ascii emit _ _ Hascii).
    unfold reconnect. rewrite Hget. simpl. rewrite Hrun. reflexivity.
Qed.

Lemma read_reacquires_after_io_error_witness :
  is_open (mkSerial "/dev/ttyUSB1" true) = true
  /\ read_loop (F := binary64) Queue.put
       [Fault ("DS" ++ String LF "")
              [mkAttempt (Prints "ttyUSB1") false (NotRun "") OpenOk];
        Poll ("ST" ++ String LF "")]
       0.2 (mkConnection true (mkSerial "/dev/ttyUSB0" true) []) []
     = read_loop (F := binary64) Queue.put
         [Poll ("ST" ++ String LF "")] 0.2
         (mkConnection true (mkSerial "/dev/ttyUSB1" true)
            (([] ++ [Logged (Log ERROR "IOError"); Closed "/dev/ttyUSB0"])
               ++ snd (get_serial_port
                         [mkAttempt (Prints "ttyUSB1") false (NotRun "") OpenOk])))
         ["DS"].
Proof.
  apply (proj1 (read_reacquires_after_io_error (F := binary64) Queue.put
                  ("DS" ++ String LF "")
                  [mkAttempt (Prints "ttyUSB1") false (NotRun "") OpenOk]
                  [Poll ("ST" ++ String LF "")] 0.2
                  (mkConnection true (mkSerial "/dev/ttyUSB0" true) []) []
                  eq_refl eq_refl)
               (mkSerial "/dev/ttyUSB1" true)
               (snd (get_serial_port
                       [mkAttempt (Prints "ttyUSB1") false (NotRun "") OpenOk]))
               eq_refl).
Defined.

(** After the fault the loop reads from the port it has acquired. *)
Example read_after_fault :
  shared_of (DAQConnection_read (F := binary64)
               [Fault ("DS" ++ String LF "")
                      [mkAttempt (Prints "ttyUSB1") false (NotRun "") OpenOk];
                Poll ("ST" ++ String LF "")]
               (mkConnection true (mkSerial "/dev/ttyUSB0" true) []) [])
  = ["DS"; "ST"]
  /\ serial_port
       (connection_of
          (DAQConnection_read (F := binary64)
             [Fault ("DS" ++ String LF "")
                    [mkAttempt (Prints "ttyUSB1") false (NotRun "") OpenOk];
              Poll ("ST" ++ String LF "")]
             (mkConnection true (mkSerial "/dev/ttyUSB0" true) []) []))
     = mkSerial "/dev/ttyUSB1" true.
Proof. split; reflexivity. Qed.

(** C7 as stated fails: an exception does leave the reader loop when the
    discovery hook cannot be located after the I/O error. *)
Lemma read_escapes_without_hook :
  DAQConnection_read (F := binary64)
    [Fault "" [mkAttempt (NotRun "No such file or directory") false
                         (NotRun "") OpenOk];
     Poll ("ST" ++ String LF "")]
    (mkConnection true (mkSerial "/dev/ttyUSB0" true) []) []
  = Escaped (OSError "Can not find binary which_tty_daq")
      (mkConnection true (mkSerial "/dev/ttyUSB0" false)
         [Logged (Log ERROR "IOError"); Closed "/dev/ttyUSB0"])
      [].
Proof. reflexivity. Qed.

(** ** The server *)

Section ReadKeeps.

(** The reader loop writes nothing to the port, leaves the running flag as it
    is, and does not touch the part [part] of its sink that [emit] leaves
    alone. *)
Context {F : Float} {Sink A : Type}.
Context (emit : string -> Sink -> Sink) (part : Sink -> A).
Hypothesis emit_part : forall line sink, part (emit line sink) = part sink.

Lemma drain_part :
  forall fuel buf sink,
    match drain Sink emit fuel buf sink with
    | Drained sink' | DrainRaised _ sink' => part sink' = part sink
    end.
Proof.
  induction fuel as [|fuel IH]; intros buf sink; simpl.
  - destruct (Nat.eqb (inWaiting buf) 0); reflexivity.
  - destruct (Nat.eqb (inWaiting buf) 0); [reflexivity|].
    destruct (readline buf) as [raw buf'].
    destruct (received raw) as [line|e]; [|reflexivity].
    specialize (IH buf' (emit line sink)).
    destruct (drain Sink emit fuel buf' (emit line sink));
      now rewrite IH, emit_part.
Qed.

Lemma reconnect_kept world t self (sink : Sink) :
  kept part self sink (reconnect world t self sink).
Proof.
  unfold kept, reconnect.
  pose proof (get_serial_port_no_write world) as Hw.
  destruct (get_serial_port world) as [[p|e|] es]; simpl in *;
    rewrite !writes_app, Hw; simpl; now rewrite !app_nil_r.
Qed.

Lemma read_body_kept ev t self (sink : Sink) :
  kept part self sink (read_body emit ev t self sink)
  /\ forall self' sink', read_body emit ev t self sink <> Returned self' sink'.
Proof.
  unfold read_body, read_pending. destruct ev as [data|data world].
  - pose proof (drain_part (String.length data) data sink) as Hd.
    destruct (negb (Nat.eqb (inWaiting data) 0)).
    + destruct (drain Sink emit (String.length data) data sink);
        (split; [|discriminate]); unfold kept; simpl;
        rewrite ?writes_app; simpl; now rewrite ?app_nil_r.
    + split; [|discriminate]. unfold kept. simpl.
      rewrite writes_app. simpl. now rewrite app_nil_r.
  - pose proof (drain_part (String.length data) data sink) as Hd.
    destruct (drain Sink emit (String.length data) data sink)
      as [sink'|e sink'].
    + pose proof (reconnect_kept world t self sink') as (H1 & H2 & H3).
      split; [unfold kept; now rewrite H1, H2, H3|].
      unfold reconnect. destruct (get_serial_port world) as [[p|e|] es];
        discriminate.
    + split; [|discriminate]. unfold kept. simpl. auto.
Qed.

(** With the running flag cleared the reader loop returns at once, and has
    taken nothing from the device. *)
Lemma read_loop_cleared (events : list hw_event) t self (sink : Sink) :
  running self = false ->
  read_loop emit events t self sink = Returned self sink.
Proof. intros Hrun. destruct events; simpl; now rewrite Hrun. Qed.

(** While the running flag is set the reader loop does not return. *)
Lemma read_loop_stays (events : list hw_event) :
  forall t self (sink : Sink),
    running self = true ->
    kept part self sink (read_loop emit events t self sink)
    /\ forall self' sink',
         read_loop emit events t self sink <> Returned self' sink'.
Proof.
  induction events as [|ev events IH]; intros t self sink Hrun; simpl;
    rewrite Hrun.
  - split; [unfold kept; simpl; auto|discriminate].
  - destruct (read_body_kept ev t self sink) as [(H1 & H2 & H3) Hnot].
    destruct (read_body emit ev t self sink) as [| t' self' sink' | | |] eqn:Hb;
      try (split; [unfold kept; auto|discriminate]).
    + exfalso. eapply Hnot. reflexivity.
    + simpl in H1, H2, H3.
      destruct (IH t' self' sink') as [(K1 & K2 & K3) Knot]; [congruence|].
      split; [unfold kept; repeat split; congruence|exact Knot].
Qed.

End ReadKeeps.

(** C3 does not hold of the code.  While the running flag is set, [serve]
    does not get past its first call of [read]: whatever the device does and
    however many turns [serve] is given, it has not returned, nothing is
    written to the serial port, and every message that arrived on the socket
    is still in its inbox. *)
Theorem serve_never_writes {F : Float} (turns : nat) (events : list hw_event)
        (self : BaseDAQConnection) (socket : Socket) :
  running self = true ->
  writes (trace (connection_of (serve turns events self socket)))
  = writes (trace self)
  /\ inbox (shared_of (serve turns events self socket)) = inbox socket
  /\ forall self' socket',
       serve turns events self socket <> Returned self' socket'.
Proof.
  intros Hrun. destruct turns as [|turns]; simpl.
  - repeat split. discriminate.
  - unfold DAQServer_read, read.
    destruct (read_loop_stays send inbox (fun _ _ => eq_refl) events
                min_sleep_time self socket Hrun) as [(_ & H2 & H3) Hnot].
    destruct (read_loop send events min_sleep_time self socket) eqn:Hr;
      simpl in *; try (repeat split; try assumption; discriminate).
    exfalso. eapply Hnot. reflexivity.
Qed.

Lemma serve_never_writes_witness :
  writes (trace (connection_of
                   (serve (F := binary64) 3
                          [Poll ("DS" ++ String LF ""); Poll ""; Poll ""]
                          (mkConnection true (mkSerial "/dev/ttyUSB0" true) [])
                          (mkSocket [] ["TL 400"]))))
  = writes []
  /\ inbox (shared_of
              (serve (F := binary64) 3
                          [Poll ("DS" ++ String LF ""); Poll ""; Poll ""]
                     (mkConnection true (mkSerial "/dev/ttyUSB0" true) [])
                     (mkSocket [] ["TL 400"])))
     = ["TL 400"].
Proof.
  destruct (serve_never_writes (F := binary64) 3
              [Poll ("DS" ++ String LF ""); Poll ""; Poll ""]
              (mkConnection true (mkSerial "/dev/ttyUSB0" true) [])
              (mkSocket [] ["TL 400"]) eq_refl) as (Hw & Hi & _).
  split; [exact Hw|exact Hi].
Defined.

(** ** The writer loop *)

Lemma command_bytes_ascii (item : string) :
  all_chars is_ascii item = true ->
  command_bytes item = inl (item ++ String CR "").
Proof.
  intros H. unfold command_bytes, encode.
  now rewrite all_chars_app, H.
Qed.

Lemma in_queue_puts (items : list string) :
  forall self, in_queue (puts items self) = (in_queue self ++ items)%list.
Proof.
  induction items as [|c items IH]; intros self; simpl.
  - now rewrite app_nil_r.
  - rewrite IH. simpl. unfold Queue.put. now rewrite <- app_assoc.
Qed.

(** With a port that accepts every write, one pass over the queue writes its
    items in order, each followed by one CR, and empties it. *)
Lemma write_pending_accepted (q : Queue.t) :
  forall answers self,
    Forall (eq Accepted) answers ->
    Forall (fun c => all_chars is_ascii c = true) q ->
    exists answers' self',
      write_pending answers self q = (answers', Looping tt self' [])
      /\ Forall (eq Accepted) answers'
      /\ running self' = running self
      /\ writes (trace self')
         = (writes (trace self) ++ map with_cr q)%list.
Proof.
  induction q as [|c q IH]; intros answers self Hans Hq; simpl.
  - exists answers, self. repeat split; try assumption. now rewrite app_nil_r.
  - inversion Hq as [|? ? Hc Hq']; subst.
    rewrite (command_bytes_ascii _ Hc).
    assert (Hport : exists answers',
               port_write (c ++ String CR "") answers self
               = (answers', did [Wrote (c ++ String CR "")] self)
               /\ Forall (eq Accepted) answers').
    { destruct Hans as [|a answers Ha Hans]; simpl.
      - exists []. split; [reflexivity|constructor].
      - subst a. exists answers. split; [reflexivity|exact Hans]. }
    destruct Hport as (answers' & -> & Hans').
    destruct (IH answers' (did [Wrote (c ++ String CR "")] self) Hans' Hq')
      as (answers'' & self'' & -> & Hans'' & Hrun & Hw).
    exists answers'', self''. repeat split; try assumption.
    rewrite Hw. simpl. rewrite writes_app. simpl. now rewrite <- app_assoc.
Qed.

(** Further cycles over the empty queue write nothing. *)
Lemma write_loop_idle {F : Float} (cycles : nat) :
  forall answers self,
    running self = true ->
    writes (trace (connection_of (write_loop cycles true answers self [])))
    = writes (trace self)
    /\ shared_of (write_loop cycles true answers self []) = [].
Proof.
  induction cycles as [|cycles IH]; intros answers self Hrun; simpl;
    rewrite Hrun.
  - now split.
  - destruct (IH answers (did [Slept (nearest 0.1)] self) Hrun) as [Hw Hq].
    rewrite Hw, Hq. simpl. rewrite writes_app. simpl.
    now rewrite app_nil_r.
Qed.

(** C4.  When [put] is called with the commands [cs] one after the other on a
    provider whose inbound queue is empty, the queue holds them in that order,
    and the writer loop, given at least one cycle and a port that accepts what
    is written, writes exactly these commands to the port, in that order, each
    once and each followed by one CR, and leaves the queue empty.  This holds
    with and without [qsize]. *)
Theorem commands_written_in_order {F : Float} (cs : list string)
        (self : DAQProvider) (conn : BaseDAQConnection) (cycles : nat)
        (qsize_implemented : bool) (answers : list write_result) :
  in_queue self = [] ->
  Forall (fun c => all_chars is_ascii c = true) cs ->
  Forall (eq Accepted) answers ->
  running conn = true ->
  in_queue (puts cs self) = cs
  /\ writes (trace (connection_of
                      (DAQConnection_write (S cycles) qsize_implemented answers
                                           conn (in_queue (puts cs self)))))
     = (writes (trace conn) ++ map with_cr cs)%list
  /\ shared_of (DAQConnection_write (S cycles) qsize_implemented answers conn
                                    (in_queue (puts cs self)))
     = [].
Proof.
  intros Hempty Hcs Hans Hrun.
  assert (Hq : in_queue (puts cs self) = cs).
  { now rewrite in_queue_puts, Hempty. }
  rewrite Hq. split; [reflexivity|].
  unfold DAQConnection_write. cbn [write_loop]. rewrite Hrun.
  destruct qsize_implemented.
  - destruct (write_pending_accepted cs answers conn Hans Hcs)
      as (answers' & conn' & -> & _ & Hrun' & Hw).
    destruct (write_loop_idle cycles answers' (did [Slept (nearest 0.1)] conn'))
      as [Hw' Hq']; [simpl; congruence|].
    rewrite Hw', Hq'. simpl. rewrite writes_app, Hw. simpl.
    now rewrite app_nil_r.
  - destruct (write_pending_accepted cs answers
                (did [Logged (Log DEBUG "Running Mac version of muonic.")] conn)
                Hans Hcs)
      as (answers' & conn' & -> & _ & _ & Hw).
    simpl. rewrite Hw. simpl. rewrite writes_app. simpl.
    now rewrite app_nil_r.
Qed.

Lemma commands_written_in_order_witness :
  writes (trace (connection_of
                   (DAQConnection_write (F := binary64) 3 true []
                      (mkConnection true (mkSerial "/dev/ttyUSB0" true) [])
                      (in_queue (puts ["ST"] (mkProvider [] [] []))))))
  = ["ST" ++ String CR ""].
Proof.
  apply (proj1 (proj2 (commands_written_in_order (F := binary64)
           ["ST"] (mkProvider [] [] [])
           (mkConnection true (mkSerial "/dev/ttyUSB0" true) []) 2 true []
           eq_refl
           ltac:(repeat constructor)
           ltac:(constructor)
           eq_refl))).
Defined.


(** * Further properties *)

(** ** The local provider *)

Lemma get_validated (w : Queue.wait) (line : string) (rest : Queue.t)
      (self : DAQProvider) :
  out_queue self = line :: rest ->
  fst (get w self) = validated line
  /\ out_queue (snd (get w self)) = rest
  /\ in_queue (snd (get w self)) = in_queue self.
Proof.
  intros Hq. rewrite (get_nonempty _ _ _ _ Hq), validate_line_cases.
  unfold validated. rewrite LINE_PATTERN_matches.
  destruct (valid_by_spec line); simpl; repeat split.
Qed.

Lemma gets_on_empty (k : nat) (self : DAQProvider) :
  out_queue self = [] ->
  history (repeat (Get Queue.NoWait) k) self
  = repeat (Raise (DAQIOError "Queue is empty")) k.
Proof.
  intros Hq. induction k as [|k IH]; simpl; [reflexivity|].
  rewrite (get_empty _ _ Hq). now rewrite IH.
Qed.

Lemma history_of_gets (k : nat) (q : Queue.t) :
  forall self,
    out_queue self = q ->
    history (repeat (Get Queue.NoWait) (List.length q + k)) self
    = (map validated q ++ repeat (Raise (DAQIOError "Queue is empty")) k)%list.
Proof.
  induction q as [|line q IH]; intros self Hq.
  - now apply gets_on_empty.
  - destruct (get_validated Queue.NoWait line q self Hq) as (Hr & Hq' & _).
    simpl. destruct (get Queue.NoWait self) as [r self'] eqn:Hg.
    simpl in Hr, Hq'. subst r. f_equal. now apply IH.
Qed.

(** X1.  Non-blocking calls of [get], one after the other, return what the
    outbound queue holds in the order in which it was filled, a line that does
    not match [LINE_PATTERN] as [None]; every call after the queue has been
    emptied raises [DAQIOError]. *)
Theorem gets_in_order (k : nat) (self : DAQProvider) :
  history (repeat (Get Queue.NoWait) (List.length (out_queue self) + k)) self
  = (map validated (out_queue self)
     ++ repeat (Raise (DAQIOError "Queue is empty")) k)%list.
Proof.
  remember (out_queue self) as q eqn:Hq. symmetry in Hq.
  revert self Hq. induction q as [|line q IH]; intros self Hq.
  - now apply gets_on_empty.
  - destruct (get_validated Queue.NoWait line q self Hq) as (Hr & Hq' & _).
    simpl. destruct (get Queue.NoWait self) as [r self'] eqn:Hg.
    simpl in Hr, Hq'. subst r. f_equal. now apply IH.
Qed.

Lemma get_logs (w : Queue.wait) (self : DAQProvider) :
  exists ws,
    logger (snd (get w self)) = (logger self ++ ws)%list
    /\ List.length ws = rejected [fst (get w self)]
    /\ Forall (fun r => log_level r = WARNING) ws.
Proof.
  destruct (out_queue self) as [|line rest] eqn:Hq.
  - exists []. rewrite (get_empty _ _ Hq), app_nil_r.
    destruct w; simpl; repeat split; constructor.
  - rewrite (get_nonempty _ _ _ _ Hq), validate_line_cases.
    destruct (valid_by_spec line); simpl.
    + exists []. rewrite app_nil_r. repeat split. constructor.
    + eexists. repeat split. repeat constructor.
Qed.

(** X2.  Whatever is called on the provider, and whatever arrives in between,
    its logger receives one record for each [None] that a [get] returns, each
    of them a warning, and nothing else. *)
Theorem one_warning_per_rejected_line (calls : list call) (self : DAQProvider) :
  exists ws,
    logger (after calls self) = (logger self ++ ws)%list
    /\ List.length ws = rejected (history calls self)
    /\ Forall (fun r => log_level r = WARNING) ws.
Proof.
  revert self. induction calls as [|[w|item|line] calls IH]; intros self; simpl.
  - exists []. rewrite app_nil_r. repeat split. constructor.
  - destruct (get_logs w self) as (ws & Hl & Hn & Hw).
    destruct (IH (snd (get w self))) as (ws' & Hl' & Hn' & Hw').
    destruct (get w self) as [r self'] eqn:Hg. simpl in *.
    exists (ws ++ ws')%list. rewrite Hl', Hl, app_assoc, length_app, Hn, Hn'.
    repeat split.
    + destruct r as [[?|]| |]; reflexivity.
    + apply Forall_app. now split.
  - destruct (IH (snd (put item self))) as (ws & Hl & Hn & Hw).
    exists ws. now repeat split.
  - destruct (IH (set_out_queue (Queue.put line (out_queue self)) self))
      as (ws & Hl & Hn & Hw).
    exists ws. now repeat split.
Qed.

(** What [get] returns, and the outbound queue it leaves, depend on the
    outbound queue only. *)
Lemma get_reads_out_queue (w : Queue.wait) (self self' : DAQProvider) :
  out_queue self = out_queue self' ->
  fst (get w self) = fst (get w self')
  /\ out_queue (snd (get w self)) = out_queue (snd (get w self')).
Proof.
  intros H. destruct (out_queue self') as [|line rest] eqn:Hq'.
  - rewrite (get_empty _ _ H), (get_empty _ _ Hq').
    destruct w; simpl; split; congruence.
  - destruct (get_validated w line rest self H) as (-> & -> & _).
    destruct (get_validated w line rest self' Hq') as (-> & -> & _).
    now split.
Qed.

Lemma history_reads_out_queue (calls : list call) :
  forall self self',
    out_queue self = out_queue self' ->
    history calls self = history calls self'.
Proof.
  induction calls as [|[w|item|line] calls IH]; intros self self' H; simpl.
  - reflexivity.
  - destruct (get_reads_out_queue w self self' H) as [Hr Hq].
    destruct (get w self) as [r s], (get w self') as [r' s']. simpl in *.
    subst r'. f_equal. now apply IH.
  - now apply IH.
  - apply IH. simpl. now rewrite H.
Qed.

Lemma get_keeps_in_queue (w : Queue.wait) (self : DAQProvider) :
  in_queue (snd (get w self)) = in_queue self.
Proof.
  destruct (out_queue self) as [|line rest] eqn:Hq.
  - rewrite (get_empty _ _ Hq). now destruct w.
  - apply (get_validated w line rest self Hq).
Qed.

(** X3.  The two directions of the provider do not meet: what the calls of
    [get] return is the same without the calls of [put], and the inbound
    queue grows by the items put, in order, and by nothing else. *)
Theorem put_and_get_are_apart (calls : list call) (self : DAQProvider) :
  history (filter (fun c => negb (is_put c)) calls) self = history calls self
  /\ in_queue (after calls self) = (in_queue self ++ items_put calls)%list.
Proof.
  revert self. induction calls as [|[w|item|line] calls IH]; intros self.
  - simpl. now rewrite app_nil_r.
  - destruct (IH (snd (get w self))) as [Hh Hq].
    cbn [history after items_put filter is_put negb].
    rewrite Hq, get_keeps_in_queue.
    destruct (get w self) as [r self']. simpl in *. now rewrite Hh.
  - destruct (IH (snd (put item self))) as [Hh Hq].
    cbn [history after items_put filter is_put negb].
    rewrite Hq. split.
    + rewrite <- Hh. now apply history_reads_out_queue.
    + simpl. unfold Queue.put. now rewrite <- app_assoc.
  - destruct (IH (set_out_queue (Queue.put line (out_queue self)) self))
      as [Hh Hq].
    cbn [history after items_put filter is_put negb].
    now rewrite Hh, Hq.
Qed.




(** ** The remote provider *)

Lemma client_get_message (line : string) (rest : list string)
      (self : DAQClient.t) :
  inbox (DAQClient.socket self) = line :: rest ->
  fst (DAQClient.get true self) = validated line
  /\ inbox (DAQClient.socket (snd (DAQClient.get true self))) = rest
  /\ sent (DAQClient.socket (snd (DAQClient.get true self)))
     = sent (DAQClient.socket self).
Proof.
  intros Hq. unfold DAQClient.get, DAQClient._validate_line. rewrite Hq.
  cbn [DAQClient.logger DAQClient.socket].
  rewrite validate_line_cases. unfold validated.
  rewrite LINE_PATTERN_matches.
  destruct (valid_by_spec line); simpl; repeat split.
Qed.

Lemma client_gets_step (n : nat) (line : string) (rest : list string)
      (self : DAQClient.t) :
  inbox (DAQClient.socket self) = line :: rest ->
  DAQClient.gets (S n) self
  = (validated line :: fst (DAQClient.gets n (snd (DAQClient.get true self))),
     snd (DAQClient.gets n (snd (DAQClient.get true self)))).
Proof.
  intros Hq. destruct (client_get_message line rest self Hq) as (Hr & _).
  cbn [DAQClient.gets].
  destruct (DAQClient.get true self) as [r self']. simpl in Hr. subst r.
  unfold validated at 1. cbn [snd].
  now destruct (DAQClient.gets n self').
Qed.

Lemma client_gets_waits (n : nat) (self : DAQClient.t) :
  inbox (DAQClient.socket self) = [] ->
  DAQClient.gets (S n) self = ([Blocked], self).
Proof.
  intros Hq. cbn [DAQClient.gets]. unfold DAQClient.get. now rewrite Hq.
Qed.

(** X6.  The calls of [get] on a client return the messages that arrived on
    its socket in the order of their arrival, a message that does not match
    [LINE_PATTERN] as [None]; the call after the last message waits, it does
    not raise, and nothing is sent.  When [recv_string] raises, [get] raises
    [DAQIOError] and the client is as before. *)
Theorem client_gets_in_order (self : DAQClient.t) :
  fst (DAQClient.gets (S (List.length (inbox (DAQClient.socket self)))) self)
  = (map validated (inbox (DAQClient.socket self)) ++ [Blocked])%list
  /\ sent (DAQClient.socket
             (snd (DAQClient.gets
                     (S (List.length (inbox (DAQClient.socket self)))) self)))
     = sent (DAQClient.socket self)
  /\ DAQClient.get false self = (Raise (DAQIOError "Socket error"), self).
Proof.
  assert (H : forall q self,
             inbox (DAQClient.socket self) = q ->
             fst (DAQClient.gets (S (List.length q)) self)
             = (map validated q ++ [Blocked])%list
             /\ sent (DAQClient.socket
                        (snd (DAQClient.gets (S (List.length q)) self)))
                = sent (DAQClient.socket self)).
  { induction q as [|line q IH]; intros s Hq.
    - now rewrite (client_gets_waits _ _ Hq).
    - destruct (client_get_message line q s Hq) as (_ & Hq' & Hs).
      cbn [List.length]. rewrite (client_gets_step _ _ _ _ Hq).
      destruct (IH _ Hq') as [Hr Hs']. cbn [fst snd map app].
      now rewrite Hr, Hs', Hs. }
  destruct (H _ self eq_refl) as [Hr Hs]. now repeat split.
Qed.

Lemma client_gets_read_inbox (n : nat) :
  forall self self',
    inbox (DAQClient.socket self) = inbox (DAQClient.socket self') ->
    fst (DAQClient.gets n self) = fst (DAQClient.gets n self').
Proof.
  induction n as [|n IH]; intros self self' H; [reflexivity|].
  destruct (inbox (DAQClient.socket self')) as [|line rest] eqn:Hq'.
  - now rewrite (client_gets_waits _ _ H), (client_gets_waits _ _ Hq').
  - destruct (client_get_message line rest self H) as (_ & Hi & _).
    destruct (client_get_message line rest self' Hq') as (_ & Hi' & _).
    rewrite (client_gets_step _ _ _ _ H), (client_gets_step _ _ _ _ Hq').
    cbn [fst]. f_equal. apply IH. now rewrite Hi, Hi'.
Qed.

(** X7.  [put] on a client sends its argument as one message, whether or not
    it matches [LINE_PATTERN], logs nothing, and leaves what the calls of
    [get] return as it was. *)
Theorem client_put_sends_unvalidated (item : string) (self : DAQClient.t)
        (n : nat) :
  fst (DAQClient.put item self) = Ret tt
  /\ sent (DAQClient.socket (snd (DAQClient.put item self)))
     = (sent (DAQClient.socket self) ++ [item])%list
  /\ DAQClient.logger (snd (DAQClient.put item self)) = DAQClient.logger self
  /\ fst (DAQClient.gets n (snd (DAQClient.put item self)))
     = fst (DAQClient.gets n self).
Proof.
  repeat split. now apply client_gets_read_inbox.
Qed.

(** ** Acquiring the serial port, again *)

(** X8.  The device path is [/dev/] followed by what the discovery hook
    printed, without the newlines at its end and with nothing else removed:
    a CR before the newline stays in the path. *)
Theorem dev_path_of_hook_output (tty : string) :
  all_chars is_ascii tty = true ->
  exists name tail,
    tty = name ++ tail
    /\ all_chars (fun c => Ascii.eqb c LF) tail = true
    /\ rstrip (fun c => Ascii.eqb c LF) name = name
    /\ get_dev_path (Prints tty) = inl ("/dev/" ++ name).
Proof.
  intros Hascii.
  destruct (rstrip_split (fun c => Ascii.eqb c LF) tty) as (tail & Htty & Htail).
  exists (rstrip (fun c => Ascii.eqb c LF) tty), tail.
  repeat split; [exact Htty|exact Htail|apply rstrip_idem|].
  unfold get_dev_path, decode. now rewrite Hascii.
Qed.

Lemma dev_path_of_hook_output_witness :
  exists name tail,
    "ttyUSB0" ++ String CR (String LF "") = name ++ tail
    /\ all_chars (fun c => Ascii.eqb c LF) tail = true
    /\ rstrip (fun c => Ascii.eqb c LF) name = name
    /\ get_dev_path (Prints ("ttyUSB0" ++ String CR (String LF "")))
       = inl ("/dev/" ++ name).
Proof.
  apply (dev_path_of_hook_output ("ttyUSB0" ++ String CR (String LF ""))).
  reflexivity.
Defined.

(** When [get_serial_port] returns, the attempts before the last one have
    failed to open the device, and the last one found a device and opened
    it. *)
Lemma get_serial_port_connected (world : list attempt) :
  forall p es,
    get_serial_port world = (Connected p, es) ->
    exists fails a rest dev,
      world = (fails ++ a :: rest)%list
      /\ Forall open_fails fails
      /\ find_dev a = inl dev /\ opening a = OpenOk
      /\ p = mkSerial dev true
      /\ sleeps es = repeat 5%Q (List.length fails).
Proof.
  induction world as [|a world IH]; intros p es; simpl; [discriminate|].
  destruct (find_dev a) as [dev|e] eqn:Hdev; [|discriminate].
  destruct (opening a) as [|msg] eqn:Hopen.
  - intros H. inversion H; subst.
    exists [], a, world, dev. now repeat split.
  - destruct (get_serial_port world) as [r later] eqn:Hw.
    intros H. inversion H; subst.
    destruct (IH p later eq_refl)
      as (fails & b & rest & dev' & -> & Hf & Hb & Hob & Hp & Hs).
    exists (a :: fails), b, rest, dev'. repeat split; try assumption.
    + constructor; [|exact Hf]. split; eauto.
    + simpl. now rewrite Hs.
Qed.

(** X9.  When the constructor of a connection returns, the connection is
    running and its port is open, on a device that the discovery hook named in
    the attempt that opened it; every attempt before that one failed to open
    its device and was followed by one pause of five seconds; nothing was
    written to the port. *)
Theorem connection_constructed (world : list attempt)
        (self : BaseDAQConnection) (es : list effect) :
  __init__ world = (Ret self, es) ->
  running self = true
  /\ is_open (serial_port self) = true
  /\ writes (trace self) = []
  /\ exists fails a rest,
       world = (fails ++ a :: rest)%list
       /\ Forall open_fails fails
       /\ find_dev a = inl (port (serial_port self))
       /\ opening a = OpenOk
       /\ sleeps (trace self) = repeat 5%Q (List.length fails).
Proof.
  unfold __init__.
  pose proof (get_serial_port_no_write world) as Hw.
  destruct (get_serial_port world) as [[p|e|] es'] eqn:Hget;
    intros H; inversion H; subst. simpl in *.
  destruct (get_serial_port_connected _ _ _ Hget)
    as (fails & a & rest & dev & -> & Hf & Hdev & Hopen & -> & Hs).
  repeat split; try assumption.
  exists fails, a, rest. now repeat split.
Qed.

Lemma connection_constructed_witness :
  running (mkConnection true (mkSerial "/dev/ttyUSB0" true)
             (snd (get_serial_port
                     [mkAttempt (Prints "ttyUSB0") false (NotRun "")
                                (OpenFails "busy");
                      mkAttempt (Prints "ttyUSB0") false (NotRun "") OpenOk])))
  = true.
Proof.
  apply (connection_constructed
           [mkAttempt (Prints "ttyUSB0") false (NotRun "") (OpenFails "busy");
            mkAttempt (Prints "ttyUSB0") false (NotRun "") OpenOk]
           _ _ eq_refl).
Defined.

(** ** The reader loop, again *)

Lemma fold_emit_map {Sink : Type} (emit : string -> Sink -> Sink)
      (f : string -> string) (ls : list string) :
  forall sink,
    fold_left (fun s raw => emit (f raw) s) ls sink
    = fold_left (fun s line => emit line s) (map f ls) sink.
Proof. induction ls as [|l ls IH]; intros sink; simpl; [reflexivity|apply IH]. Qed.



Section GoesOn.

Context {F : Float} {Sink : Type} (emit : string -> Sink -> Sink).


End GoesOn.



Lemma get_serial_port_pauses (world : list attempt) :
  Forall (fun t => t = 5%Q) (sleeps (snd (get_serial_port world))).
Proof.
  induction world as [|a world IH]; simpl; [constructor|].
  destruct (find_dev a) as [dev|e]; [|constructor].
  destruct (opening a); [constructor|].
  destruct (get_serial_port world) as [r later]. simpl in *.
  now constructor.
Qed.

Section Pauses.

Context {F : Float} {HF : FloatLaws F}.
Context {Sink : Type} (emit : string -> Sink -> Sink).

Lemma reconnect_pauses world t self (sink : Sink) :
  Forall reader_pause (sleeps (trace self)) ->
  Forall reader_pause
         (sleeps (trace (connection_of (reconnect world t self sink)))).
Proof.
  intros Hs. unfold reconnect.
  pose proof (get_serial_port_pauses world) as Hw.
  assert (Hw' : Forall reader_pause (sleeps (snd (get_serial_port world)))).
  { eapply Forall_impl; [|exact Hw]. intros t' ->. now right. }
  destruct (get_serial_port world) as [[p|e|] es]; simpl in *;
    rewrite !sleeps_app; simpl; rewrite app_nil_r;
    apply Forall_app; now split.
Qed.

Lemma read_body_pauses ev t self (sink : Sink) :
  is_float t /\ within_bounds t ->
  Forall reader_pause (sleeps (trace self)) ->
  Forall reader_pause
         (sleeps (trace (connection_of (read_body emit ev t self sink)))).
Proof.
  intros [Hfl Ht] Hs. unfold read_body. destruct ev as [data|data world].
  - destruct (negb (Nat.eqb (inWaiting data) 0)).
    + destruct (read_pending emit data sink); simpl; [|exact Hs].
      rewrite sleeps_app. apply Forall_app. split; [exact Hs|].
      constructor; [|constructor]. left. now apply max_floor.
    + simpl. rewrite sleeps_app. apply Forall_app. split; [exact Hs|].
      constructor; [|constructor]. left. now apply min_ceiling.
  - destruct (read_pending emit data sink); simpl; [|exact Hs].
    now apply reconnect_pauses.
Qed.

Lemma read_loop_pauses (events : list hw_event) :
  forall t self (sink : Sink),
    is_float t /\ within_bounds t ->
    Forall reader_pause (sleeps (trace self)) ->
    Forall reader_pause
           (sleeps (trace (connection_of (read_loop emit events t self sink)))).
Proof.
  induction events as [|ev events IH]; intros t self sink Ht Hs; simpl.
  - now destruct (running self).
  - destruct (running self); [|exact Hs].
    pose proof (read_body_pauses ev t self sink Ht Hs) as Hb.
    destruct (read_body emit ev t self sink) as [| t' self' sink' | | |] eqn:E;
      try exact Hb.
    apply IH; [|exact Hb].
    exact (read_body_bounds emit _ _ _ _ _ _ _ Ht E).
Qed.

(** X11.  Whatever the device does, every pause that the reader loop makes is
    a backoff interval between [min_sleep_time] and [max_sleep_time] or one of
    the pauses of five seconds of [get_serial_port]: it never sleeps longer
    between two polls of a port that works. *)
Theorem reader_pauses_bounded (events : list hw_event)
        (self : BaseDAQConnection) (sink : Sink) :
  Forall reader_pause (sleeps (trace self)) ->
  Forall reader_pause
         (sleeps (trace (connection_of (read emit events self sink)))).
Proof.
  intros Hs. apply read_loop_pauses; [|exact Hs].
  destruct bounds_ordered as [H0 Hmm].
  unfold is_float, within_bounds. split; [apply nearest_float|].
  split; lra.
Qed.

End Pauses.

Lemma reader_pauses_bounded_witness :
  Forall (reader_pause (F := binary64))
         (sleeps
            (trace
               (connection_of
                  (read (F := binary64) Queue.put
                        [Poll ""; Poll ("DS" ++ String LF "");
                         Fault "" [mkAttempt (Prints "ttyUSB0") false (NotRun "")
                                             (OpenFails "busy");
                                   mkAttempt (Prints "ttyUSB0") false (NotRun "")
                                             OpenOk];
                         Poll ""]
                        (mkConnection true (mkSerial "/dev/ttyUSB0" true) [])
                        [])))).
Proof.
  apply (reader_pauses_bounded (F := binary64) (HF := binary64_laws) Queue.put
           [Poll ""; Poll ("DS" ++ String LF "");
            Fault "" [mkAttempt (Prints "ttyUSB0") false (NotRun "")
                                (OpenFails "busy");
                      mkAttempt (Prints "ttyUSB0") false (NotRun "") OpenOk];
            Poll ""]
           (mkConnection true (mkSerial "/dev/ttyUSB0" true) []) []).
  constructor.
Defined.

(** X12.  While the device cannot be opened the reader loop stays in
    [get_serial_port]: after an I/O error followed by attempts that all fail
    to open the device, it has pushed the lines read before the error, its
    port is closed, it has paused five seconds once for each attempt, and it
    has taken no further turn, whatever the device would have sent. *)
Theorem reader_waits_for_the_port {F : Float} {Sink : Type}
        (emit : string -> Sink -> Sink) (data : string) (world : list attempt)
        (events : list hw_event) (t : Q) (self : BaseDAQConnection)
        (sink : Sink) :
  running self = true ->
  all_chars is_ascii data = true ->
  Forall open_fails world ->
  exists self',
    read_loop emit (Fault data world :: events) t self sink
    = Reacquiring self'
        (fold_left (fun s line => emit line s) (map strip (raw_lines data)) sink)
    /\ is_open (serial_port self') = false
    /\ sleeps (trace self')
       = (sleeps (trace self) ++ repeat 5%Q (List.length world))%list.
Proof.
  intros Hrun Hascii Hworld.
  destruct (get_serial_port_retries world Hworld []) as (Hfst & _ & Hsl).
  rewrite app_nil_r in Hfst. simpl in Hfst.
  cbn [read_loop]. rewrite Hrun. unfold read_body.
  rewrite (read_pending_ascii emit _ _ Hascii), fold_emit_map.
  unfold reconnect.
  destruct (get_serial_port world) as [r es]. simpl in Hfst, Hsl. subst r.
  eexists. split; [reflexivity|]. split; [reflexivity|].
  simpl. rewrite !sleeps_app, Hsl. simpl. now rewrite app_nil_r.
Qed.

Lemma reader_waits_for_the_port_witness :
  exists self',
    read_loop (F := binary64) Queue.put
      [Fault ("DS" ++ String LF "")
             [mkAttempt (Prints "ttyUSB0") false (NotRun "") (OpenFails "busy")];
       Poll ("ST" ++ String LF "")]
      0.01 (mkConnection true (mkSerial "/dev/ttyUSB0" true) []) []
    = Reacquiring self'
        (fold_left (fun s line => Queue.put line s)
                   (map strip (raw_lines ("DS" ++ String LF ""))) [])
    /\ is_open (serial_port self') = false
    /\ sleeps (trace self') = ([] ++ repeat 5%Q 1)%list.
Proof.
  apply (reader_waits_for_the_port (F := binary64) Queue.put
           ("DS" ++ String LF "")
           [mkAttempt (Prints "ttyUSB0") false (NotRun "") (OpenFails "busy")]
           [Poll ("ST" ++ String LF "")]
           0.01 (mkConnection true (mkSerial "/dev/ttyUSB0" true) []) []
           eq_refl eq_refl
           ltac:(repeat constructor; eexists; reflexivity)).
Defined.

(** X13.  The reader loop never writes to the serial port and never changes
    the running flag, whatever the device does and however the loop ends. *)
Theorem reader_never_writes {F : Float} (events : list hw_event)
        (self : BaseDAQConnection) (q : Queue.t) :
  writes (trace (connection_of (DAQConnection_read events self q)))
  = writes (trace self)
  /\ running (connection_of (DAQConnection_read events self q))
     = running self.
Proof.
  unfold DAQConnection_read, read.
  destruct (running self) eqn:Hrun.
  - destruct (read_loop_stays Queue.put (fun _ => tt) (fun _ _ => eq_refl)
                events min_sleep_time self q Hrun) as [(H1 & H2 & _) _].
    split; congruence.
  - rewrite (read_loop_cleared Queue.put events _ _ _ Hrun). simpl.
    now split.
Qed.

(** ** The writer loop and the server, again *)

(** One pass over the queue writes the commands whose write is accepted, and
    empties the queue. *)
Lemma write_pending_any (q : Queue.t) :
  forall answers self,
    Forall (fun c => all_chars is_ascii c = true) q ->
    exists answers' self',
      write_pending answers self q = (answers', Looping tt self' [])
      /\ running self' = running self
      /\ writes (trace self') = (writes (trace self) ++ written answers q)%list
      /\ sleeps (trace self') = sleeps (trace self).
Proof.
  induction q as [|c q IH]; intros answers self Hq; simpl.
  - exists answers, self. rewrite app_nil_r. now repeat split.
  - inversion Hq as [|? ? Hc Hq']; subst.
    rewrite (command_bytes_ascii _ Hc).
    destruct answers as [|[|] answers]; simpl.
    + destruct (IH [] (did [Wrote (c ++ String CR "")] self) Hq')
        as (a' & s' & -> & Hrun & Hw & Hs).
      exists a', s'. repeat split; try assumption.
      * rewrite Hw. simpl. rewrite writes_app. simpl.
        now rewrite <- app_assoc.
      * rewrite Hs. simpl. rewrite sleeps_app. simpl. apply app_nil_r.
    + destruct (IH answers (did [Wrote (c ++ String CR "")] self) Hq')
        as (a' & s' & -> & Hrun & Hw & Hs).
      exists a', s'. repeat split; try assumption.
      * rewrite Hw. simpl. rewrite writes_app. simpl.
        now rewrite <- app_assoc.
      * rewrite Hs. simpl. rewrite sleeps_app. simpl. apply app_nil_r.
    + destruct (IH answers self Hq') as (a' & s' & -> & Hrun & Hw & Hs).
      exists a', s'. now repeat split.
Qed.

(** X14.  A command whose write times out is lost: whatever the port answers
    to the writes, the writer loop takes every command from the queue once,
    writes those whose write does not time out, in order and each followed by
    one CR, writes no command a second time, and leaves the queue empty.
    This holds with and without [qsize]. *)
Theorem timed_out_commands_are_lost {F : Float} (q : Queue.t)
        (conn : BaseDAQConnection) (cycles : nat) (qsize_implemented : bool)
        (answers : list write_result) :
  Forall (fun c => all_chars is_ascii c = true) q ->
  running conn = true ->
  writes (trace (connection_of
                   (DAQConnection_write (S cycles) qsize_implemented answers
                                        conn q)))
  = (writes (trace conn) ++ written answers q)%list
  /\ shared_of (DAQConnection_write (S cycles) qsize_implemented answers conn q)
     = [].
Proof.
  intros Hq Hrun.
  unfold DAQConnection_write. cbn [write_loop]. rewrite Hrun.
  destruct qsize_implemented.
  - destruct (write_pending_any q answers conn Hq)
      as (answers' & conn' & -> & Hrun' & Hw & _).
    destruct (write_loop_idle cycles answers' (did [Slept (nearest 0.1)] conn'))
      as [Hw' Hq']; [simpl; congruence|].
    rewrite Hw', Hq'. simpl. rewrite writes_app, Hw. simpl.
    now rewrite app_nil_r.
  - destruct (write_pending_any q answers
                (did [Logged (Log DEBUG "Running Mac version of muonic.")] conn)
                Hq)
      as (answers' & conn' & -> & _ & Hw & _).
    simpl. rewrite Hw. simpl. rewrite writes_app. simpl.
    now rewrite app_nil_r.
Qed.

Lemma timed_out_commands_are_lost_witness :
  writes (trace (connection_of
                   (DAQConnection_write (F := binary64) 2 true
                      [Accepted; TimedOut; Accepted]
                      (mkConnection true (mkSerial "/dev/ttyUSB0" true) [])
                      ["ST"; "TL 400"; "DS"])))
  = ([] ++ written [Accepted; TimedOut; Accepted] ["ST"; "TL 400"; "DS"])%list.
Proof.
  apply (proj1 (timed_out_commands_are_lost (F := binary64)
                  ["ST"; "TL 400"; "DS"]
                  (mkConnection true (mkSerial "/dev/ttyUSB0" true) [])
                  1 true [Accepted; TimedOut; Accepted]
                  ltac:(repeat constructor) eq_refl)).
Defined.

Lemma server_write_loop_messages {F : Float} (pending : list string) :
  forall self sent,
    running self = true ->
    Forall (fun c => all_chars is_ascii c = true) pending ->
    exists self',
      server_write_loop pending self sent = Receiving self' (mkSocket sent [])
      /\ writes (trace self')
         = (writes (trace self) ++ map with_cr pending)%list
      /\ sleeps (trace self')
         = (sleeps (trace self) ++ repeat (nearest 0.1) (List.length pending))%list.
Proof.
  induction pending as [|msg pending IH]; intros self sent Hrun Hp; simpl;
    rewrite Hrun.
  - exists self. rewrite !app_nil_r. now repeat split.
  - inversion Hp as [|? ? Hm Hp']; subst.
    rewrite (command_bytes_ascii _ Hm).
    destruct (IH (did [Wrote (msg ++ String CR ""); Slept (nearest 0.1)] self)
                 sent Hrun Hp') as (self' & -> & Hw & Hs).
    exists self'. split; [reflexivity|]. split.
    + rewrite Hw. simpl. rewrite writes_app. simpl. now rewrite <- app_assoc.
    + rewrite Hs. simpl. rewrite sleeps_app. simpl. now rewrite <- app_assoc.
Qed.

(** X15.  [DAQServer.write], when it is called with the running flag set,
    writes the messages that arrived on the socket to the serial port in the
    order of their arrival, each followed by one CR and by a pause of 0.1 s,
    sends nothing, and then waits in [recv_string]: it does not return. *)
Theorem server_writes_messages_in_order {F : Float}
        (self : BaseDAQConnection) (socket : Socket) :
  running self = true ->
  Forall (fun c => all_chars is_ascii c = true) (inbox socket) ->
  exists self',
    DAQServer_write self socket = Receiving self' (mkSocket (sent socket) [])
    /\ writes (trace self')
       = (writes (trace self) ++ map with_cr (inbox socket))%list
    /\ sleeps (trace self')
       = (sleeps (trace self)
          ++ repeat (nearest 0.1) (List.length (inbox socket)))%list.
Proof.
  intros Hrun Hp. now apply server_write_loop_messages.
Qed.

Lemma server_writes_messages_in_order_witness :
  exists self',
    DAQServer_write (F := binary64)
      (mkConnection true (mkSerial "/dev/ttyUSB0" true) [])
      (mkSocket ["DS"] ["TL 400"; "ST"])
    = Receiving self' (mkSocket ["DS"] [])
    /\ writes (trace self') = ([] ++ map with_cr ["TL 400"; "ST"])%list
    /\ sleeps (trace self')
       = ([] ++ repeat (@nearest binary64 0.1) 2)%list.
Proof.
  apply (server_writes_messages_in_order (F := binary64)
           (mkConnection true (mkSerial "/dev/ttyUSB0" true) [])
           (mkSocket ["DS"] ["TL 400"; "ST"])
           eq_refl ltac:(repeat constructor)).
Defined.

Lemma serve_cleared {F : Float} (turns : nat) (events : list hw_event)
      (self : BaseDAQConnection) (socket : Socket) :
  running self = false ->
  serve turns events self socket = Looping tt self socket.
Proof.
  intros Hrun. induction turns as [|turns IH]; [reflexivity|].
  cbn [serve]. unfold DAQServer_read, read.
  rewrite (read_loop_cleared send events _ _ _ Hrun).
  unfold DAQServer_write.
  assert (Hw : server_write_loop (inbox socket) self (sent socket)
               = Returned self socket).
  { destruct socket as [s i]. destruct i; simpl; now rewrite Hrun. }
  now rewrite Hw.
Qed.

(** X16.  [serve] does not return, whatever the running flag is; once the
    flag is cleared it goes round its loop without reading from the device,
    writing to it, sending, receiving or sleeping. *)
Theorem serve_never_returns {F : Float} (turns : nat)
        (events : list hw_event) (self : BaseDAQConnection) (socket : Socket) :
  (forall self' socket', serve turns events self socket <> Returned self' socket')
  /\ (running self = false ->
      serve turns events self socket = Looping tt self socket).
Proof.
  split; [|now apply serve_cleared].
  intros self' socket'. destruct (running self) eqn:Hrun.
  - destruct turns as [|turns]; [discriminate|].
    cbn [serve]. unfold DAQServer_read, read.
    destruct (read_loop_stays send inbox (fun _ _ => eq_refl) events
                min_sleep_time self socket Hrun) as [_ Hnot].
    destruct (read_loop send events min_sleep_time self socket) eqn:Hr;
      try discriminate.
    exfalso. eapply Hnot. reflexivity.
  - now rewrite serve_cleared.
Qed.

Lemma serve_never_returns_witness :
  serve (F := binary64) 7 [Poll ("DS" ++ String LF "")]
        (mkConnection false (mkSerial "/dev/ttyUSB0" true) [])
        (mkSocket [] ["TL 400"])
  = Looping tt (mkConnection false (mkSerial "/dev/ttyUSB0" true) [])
            (mkSocket [] ["TL 400"]).
Proof.
  apply (proj2 (serve_never_returns (F := binary64) 7
                  [Poll ("DS" ++ String LF "")]
                  (mkConnection false (mkSerial "/dev/ttyUSB0" true) [])
                  (mkSocket [] ["TL 400"]))
               eq_refl).
Defined.

(** ** From the device to the application *)

Lemma rstrip_weaker (p q : ascii -> bool) (s : string) :
  (forall c, p c = true -> q c = true) ->
  rstrip q s = s -> rstrip p s = s.
Proof.
  intros Hpq. induction s as [|c s IH]; simpl; [reflexivity|].
  destruct (is_empty (rstrip q s) && q c) eqn:E; [discriminate|].
  intros H. injection H as H. rewrite (IH H).
  rewrite H in E.
  destruct (is_empty s) eqn:Es; simpl in *; [|reflexivity].
  destruct (p c) eqn:Hp; [|reflexivity].
  rewrite (Hpq c Hp) in E. discriminate.
Qed.

Lemma crlf_is_whitespace (c : ascii) : is_crlf c = true -> is_whitespace c = true.
Proof.
  destruct c as [[] [] [] [] [] [] [] []]; simpl; intros H;
    first [reflexivity | discriminate H].
Qed.

(** What is pushed for a raw line matches [LINE_PATTERN] exactly when all its
    characters are in the grammar: it has no CR or LF at its end. *)
Lemma stripped_line_matches (raw : string) :
  Re.matches LINE_PATTERN (strip raw) = all_chars allowed_by_spec (strip raw).
Proof.
  rewrite LINE_PATTERN_matches. unfold valid_by_spec.
  rewrite (rstrip_weaker is_crlf is_whitespace); [reflexivity| |].
  - apply crlf_is_whitespace.
  - apply strip_spec.
Qed.

(** X17.  From the device to the application: when the reader loop has pushed
    the lines of [data] into the empty outbound queue of a provider, the calls
    of [get] return, in the order of the lines, for each raw line its content
    between the white space around it if every character of that content is
    in the grammar, and [None] otherwise; a CR or LF inside a line makes it
    [None]. *)
Theorem device_lines_reach_get {F : Float} (data : string)
        (conn : BaseDAQConnection) (self : DAQProvider) :
  running conn = true ->
  all_chars is_ascii data = true ->
  out_queue self = [] ->
  history (repeat (Get Queue.NoWait) (List.length (raw_lines data)))
          (set_out_queue
             (shared_of (DAQConnection_read [Poll data] conn (out_queue self)))
             self)
  = map (fun raw =>
           Ret (if all_chars allowed_by_spec (strip raw)
                then Some (strip raw) else None))
        (raw_lines data).
Proof.
  intros Hrun Hascii Hq.
  rewrite (read_one_poll data conn _ Hrun Hascii), Hq. cbn [app].
  pose proof (history_of_gets 0 (map strip (raw_lines data))
                (set_out_queue (map strip (raw_lines data)) self) eq_refl) as H.
  rewrite length_map, Nat.add_0_r in H. rewrite H. cbn [repeat].
  rewrite app_nil_r, map_map.
  apply map_ext. intros raw. unfold validated.
  now rewrite stripped_line_matches.
Qed.

Lemma device_lines_reach_get_witness :
  history (repeat (Get Queue.NoWait)
                  (List.length
                     (raw_lines ("RE 00123 00045" ++ String LF "DG{"
                                   ++ String CR (String LF "")))))
          (set_out_queue
             (shared_of
                (DAQConnection_read (F := binary64)
                   [Poll ("RE 00123 00045" ++ String LF "DG{"
                            ++ String CR (String LF ""))]
                   (mkConnection true (mkSerial "/dev/ttyUSB0" true) [])
                   (out_queue (mkProvider [] [] []))))
             (mkProvider [] [] []))
  = map (fun raw =>
           Ret (if all_chars allowed_by_spec (strip raw)
                then Some (strip raw) else None))
        (raw_lines ("RE 00123 00045" ++ String LF "DG{"
                      ++ String CR (String LF ""))).
Proof.
  apply (device_lines_reach_get (F := binary64)
           ("RE 00123 00045" ++ String LF "DG{" ++ String CR (String LF ""))
           (mkConnection true (mkSerial "/dev/ttyUSB0" true) [])
           (mkProvider [] [] []) eq_refl eq_refl eq_refl).
Defined.

(** ** Calls and cycles that interleave *)

(** X18.  The calls of [get] follow the arrivals: however the calls of [get]
    and [put] and the arrivals of lines in the outbound queue interleave, the
    results of the calls of [get] that return are, in order, what [get] makes
    of the first lines of the queue followed by the arrivals, and the queue
    that is left holds the lines after those. *)
Theorem gets_follow_arrivals (calls : list call) (self : DAQProvider) :
  exists n,
    returned (history calls self)
    = map validated (firstn n (out_queue self ++ arrived calls))
    /\ out_queue (after calls self)
       = skipn n (out_queue self ++ arrived calls)
    /\ (n <= List.length (out_queue self ++ arrived calls))%nat.
Proof.
  revert self. induction calls as [|[w|item|line] calls IH]; intros self.
  - exists 0%nat. simpl. rewrite app_nil_r. repeat split. lia.
  - destruct (out_queue self) as [|l rest] eqn:Hq.
    + destruct (IH self) as (n & Hr & Ho & Hn).
      exists n. cbn [history after arrived]. rewrite (get_empty _ _ Hq).
      rewrite Hq in *. now destruct w.
    + destruct (get_validated w l rest self Hq) as (Hres & Hq' & _).
      destruct (IH (snd (get w self))) as (n & Hr & Ho & Hn).
      exists (S n). cbn [history after arrived].
      destruct (get w self) as [r self']. simpl in Hres, Hq', Hr, Ho, Hn.
      subst r. rewrite Hq' in *. unfold validated at 1.
      cbn [returned app firstn skipn map List.length]. rewrite Hr.
      repeat split; [exact Ho|lia].
  - destruct (IH (snd (put item self))) as (n & Hr & Ho & Hn).
    exists n. now repeat split.
  - destruct (IH (set_out_queue (Queue.put line (out_queue self)) self))
      as (n & Hr & Ho & Hn).
    exists n. cbn [history after arrived].
    simpl in Hr, Ho, Hn. unfold Queue.put in *.
    rewrite <- app_assoc in Hr, Ho, Hn. now repeat split.
Qed.

Lemma write_one_cycle {F : Float} (self : BaseDAQConnection) (q : Queue.t) :
  running self = true ->
  Forall (fun c => all_chars is_ascii c = true) q ->
  exists self',
    write_loop 1 true [] self q = Looping tt self' []
    /\ running self' = true
    /\ writes (trace self') = (writes (trace self) ++ map with_cr q)%list.
Proof.
  intros Hrun Hq. cbn [write_loop]. rewrite Hrun.
  destruct (write_pending_accepted q [] self ltac:(constructor) Hq)
    as (answers' & self' & -> & _ & Hrun' & Hw).
  cbn [running did]. rewrite Hrun', Hrun.
  eexists. split; [reflexivity|]. split; [simpl; congruence|].
  simpl. rewrite writes_app, Hw. simpl. now rewrite app_nil_r.
Qed.

(** X19.  Commands that are put while the writer loop runs are written in the
    order in which they were put: when a batch of commands is put before each
    cycle, the loop has written, after the cycles, the commands of all the
    batches in order, each once and followed by one CR, and the queue is
    empty. *)
Theorem commands_written_across_cycles {F : Float}
        (batches : list (list string)) (self : BaseDAQConnection) :
  running self = true ->
  Forall (Forall (fun c => all_chars is_ascii c = true)) batches ->
  exists self',
    write_rounds batches self [] = Looping tt self' []
    /\ writes (trace self')
       = (writes (trace self) ++ map with_cr (List.concat batches))%list.
Proof.
  intros Hrun Hb. revert self Hrun.
  induction Hb as [|batch batches Hbatch _ IH]; intros self Hrun.
  - exists self. simpl. now rewrite app_nil_r.
  - cbn [write_rounds app List.concat].
    destruct (write_one_cycle self batch Hrun Hbatch) as (s1 & -> & Hrun1 & Hw1).
    destruct (IH s1 Hrun1) as (self' & -> & Hw).
    exists self'. split; [reflexivity|].
    now rewrite Hw, Hw1, map_app, app_assoc.
Qed.

Lemma commands_written_across_cycles_witness :
  exists self',
    write_rounds (F := binary64) [["ST"; "TL 400"]; []; ["DS"]]
                 (mkConnection true (mkSerial "/dev/ttyUSB0" true) []) []
    = Looping tt self' []
    /\ writes (trace self')
       = ([] ++ map with_cr (List.concat [["ST"; "TL 400"]; []; ["DS"]]))%list.
Proof.
  apply (commands_written_across_cycles (F := binary64)
           [["ST"; "TL 400"]; []; ["DS"]]
           (mkConnection true (mkSerial "/dev/ttyUSB0" true) [])
           eq_refl ltac:(repeat constructor)).
Defined.
